(** * The training orchestration loop of [main_superpixels_gcn.py]

    A shallow embedding of [save_checkpoint] and [train_val_pipeline]:
    the epoch loop, its two [break]s, the checkpoint directory and the
    scalars handed to the [SummaryWriter].

    Conventions of the embedding:
    - Python floats (losses, accuracies, learning rates, clock readings)
      are exact rationals [Q]; [inf] and [nan] are not represented.
    - Python [int]s are [Z]; the loop index of [range] is a [nat] that
      is injected into [Z] wherever the source does arithmetic on it.
    - An uncaught exception is the result [Raise]; the source has no
      [try], so [Raise] always travels up to the caller.
    - Whatever the source obtains from outside (the values returned by
      [train_epoch] and [evaluate_network], the readings of
      [time.time()], whether [os.remove] succeeds) is read from a
      [World].  [train_epoch] hands back the optimizer it was given, so
      the rate read in the loop is the one the scheduler writes.
    - [train_epoch], [evaluate_network] and [torch.save] are taken to
      return; the lines printed before the loop are left out. *)

From Stdlib Require Import List String Ascii Bool Arith ZArith QArith Lia.
From Stdlib Require Import DecimalString DecimalZ DecimalPos.
From Stdlib Require Import Qround Permutation.
Import ListNotations.

Local Open Scope string_scope.

(** ** Exceptions *)

Inductive Exn : Type :=
| ValueError (s : string)        (* int() on a non-numeric string *)
| OSError (path : string).       (* os.remove() that fails *)

Inductive Err (A : Type) : Type :=
| Ok (a : A)
| Raise (x : Exn).

Arguments Ok {A} a.
Arguments Raise {A} x.

Definition bind {A B : Type} (m : Err A) (k : A -> Err B) : Err B :=
  match m with
  | Ok a => k a
  | Raise x => Raise x
  end.

Notation "x <- m ;; k" := (bind m (fun x => k))
  (at level 61, m at next level, right associativity).

(** ** Strings: [str.split], [str.format], [int] *)

(** [s.split(c)] for a one-character separator: never empty, the
    pieces are in order. *)
Fixpoint split (c : ascii) (s : string) : list string :=
  match s with
  | EmptyString => [EmptyString]
  | String a s' =>
      if Ascii.eqb a c then EmptyString :: split c s'
      else match split c s' with
           | [] => [String a EmptyString]
           | w :: ws => String a w :: ws
           end
  end.

(** The blanks that [int] skips around the number of an ASCII string:
    tab, line feed, vertical tab, form feed, carriage return, space. *)
Definition is_space (a : ascii) : bool :=
  let n := nat_of_ascii a in
  ((9 <=? n) && (n <=? 13) || (n =? 32))%nat.

Fixpoint lstrip (s : string) : string :=
  match s with
  | EmptyString => EmptyString
  | String a s' => if is_space a then lstrip s' else s
  end.

Fixpoint rstrip (s : string) : string :=
  match s with
  | EmptyString => EmptyString
  | String a s' =>
      match rstrip s' with
      | EmptyString => if is_space a then EmptyString
                       else String a EmptyString
      | r => String a r
      end
  end.

(** [int(s)] in base 10 on an ASCII string: blanks around are dropped,
    then come an optional sign and decimal digits; anything else is a
    [ValueError].  Digit-group underscores cannot reach it here, since
    the name is split at ['_'] before.  Strings are byte strings; the
    digits and blanks that [int] knows outside ASCII are not
    represented, and statements that depend on a name not being a
    number ask for ASCII names ([ascii_only]). *)
Definition int_of_str (s : string) : Err Z :=
  let parsed :=
    match rstrip (lstrip s) with
    | String "+" s' => option_map Decimal.Pos (NilZero.uint_of_string s')
    | s' => NilZero.int_of_string s'
    end in
  match parsed with
  | Some d => Ok (Z.of_int d)
  | None => Raise (ValueError s)
  end.

(** ['{}'.format(n)] for an integer. *)
Definition str_of_int (n : Z) : string :=
  NilZero.string_of_int (Z.to_int n).

(** [int(file.split('_')[-1].split('.')[0])] *)
Definition epoch_of_file (file : string) : Err Z :=
  int_of_str (hd "" (split "." (last (split "_" file) ""))).

Definition is_digit (a : ascii) : bool :=
  let n := nat_of_ascii a in ((48 <=? n) && (n <=? 57))%nat.

Fixpoint all_digits (s : string) : bool :=
  match s with
  | EmptyString => true
  | String a s' => is_digit a && all_digits s'
  end.

Fixpoint has_char (c : ascii) (s : string) : bool :=
  match s with
  | EmptyString => false
  | String a s' => Ascii.eqb a c || has_char c s'
  end.

(** ** The checkpoint directory *)

(** The directory is the list of its entry names, in listing order. *)
Definition Dir := list string.

(** ['epoch_{}.pkl'.format(epoch)] *)
Definition ckpt_name (epoch : nat) : string :=
  "epoch_" ++ str_of_int (Z.of_nat epoch) ++ ".pkl".

(** [torch.save(..., os.path.join(root_ckpt_dir, name))]: the entry
    exists afterwards; an existing one is overwritten in place. *)
Definition write_file (name : string) (d : Dir) : Dir :=
  if existsb (String.eqb name) d then d else (d ++ [name])%list.

Definition remove_file (name : string) (d : Dir) : Dir :=
  filter (fun n => negb (String.eqb n name)) d.

Fixpoint ends_with (suffix s : string) : bool :=
  if String.eqb s suffix then true
  else match s with
       | EmptyString => false
       | String _ s' => ends_with suffix s'
       end.

(** The entries matched by the pattern ['*.pkl']: [glob] does not match
    a leading dot with [*]. *)
Definition matches_pkl (name : string) : bool :=
  ends_with ".pkl" name &&
  match name with
  | String "." _ => false
  | _ => true
  end.

(** [glob.glob(root_ckpt_dir + '/*.pkl')], as entry names; the path the
    source sees is [path_of root name].  This is the listing when the
    directory name is taken literally by [glob] ([plain_root] below);
    the statements that depend on the listing assume it. *)
Definition glob_pkl (d : Dir) : list string := filter matches_pkl d.

Definition path_of (root name : string) : string := root ++ "/" ++ name.

(** The [for file in glob.glob(...)] loop of [save_checkpoint].
    [rm_fails] tells for which entries [os.remove] raises. *)
Fixpoint prune (rm_fails : string -> bool) (root : string) (epoch : nat)
    (files : list string) (d : Dir) : Err Dir :=
  match files with
  | [] => Ok d
  | f :: rest =>
      k <- epoch_of_file (path_of root f) ;;
      if (k <? Z.of_nat epoch - 1)%Z then
        if rm_fails f || negb (existsb (String.eqb f) d)
        then Raise (OSError (path_of root f))
        else prune rm_fails root epoch rest (remove_file f d)
      else prune rm_fails root epoch rest d
  end.

Definition save_checkpoint (rm_fails : string -> bool) (root : string)
    (epoch : nat) (d : Dir) : Err Dir :=
  let d1 := write_file (ckpt_name epoch) d in
  prune rm_fails root epoch (glob_pkl d1) d1.

(** The directory a run holds once epoch [e] is saved: the checkpoint
    of [e] and, from the second epoch on, the one before it. *)
Definition retained (e : nat) : Dir :=
  match e with
  | O => [ckpt_name 0]
  | S k => [ckpt_name k; ckpt_name (S k)]
  end.

(** ** Hyper-parameters *)

Local Open Scope Q_scope.

(** The entries of the [params] dictionary that [train_val_pipeline]
    reads to drive the loop. *)
Record Params : Type := {
  epochs : nat;
  init_lr : Q;
  lr_reduce_factor : Q;
  lr_schedule_patience : nat;
  min_lr : Q;
  max_time : Q
}.

(** The dictionary built in [main]. *)
Definition main_params : Params := {|
  epochs := 1000;
  init_lr := 1 # 1000;
  lr_reduce_factor := 1 # 2;
  lr_schedule_patience := 5;
  min_lr := 1 # 100000;
  max_time := 48
|}.

Definition Qlt_bool (x y : Q) : bool := negb (Qle_bool y x).

(** ** The learning-rate scheduler *)

(** What the pipeline uses of the optimizer/scheduler pair: the
    constructor (learning rate, factor, patience), [scheduler.step] and
    the read of [optimizer.param_groups[0]['lr']].  The scheduler holds
    the optimizer it was built on, so a step shows in the next read. *)
Class LRScheduler (S : Type) : Type := {
  sched_new : Q -> Q -> nat -> S;
  sched_step : S -> Q -> S;
  sched_lr : S -> Q
}.

(** Modelled from the spec: [optim.lr_scheduler.ReduceLROnPlateau] is
    imported from a library whose code is not among the sources.  The
    spec (4.2) gives its policy: [bestLoss] starts at +infinity
    ([None] here) and [badEpochs] at 0; a strictly smaller loss becomes
    the best and resets the counter; otherwise the counter grows, and
    once it exceeds the patience the rate is multiplied by the factor
    and the counter reset. *)
Record Plateau : Type := {
  factor : Q;
  patience : nat;
  best : option Q;
  num_bad_epochs : nat;
  lr : Q
}.

Definition plateau_new (rate f : Q) (p : nat) : Plateau :=
  {| factor := f; patience := p; best := None; num_bad_epochs := 0;
     lr := rate |}.

Definition is_better (v : Q) (b : option Q) : bool :=
  match b with
  | None => true
  | Some b' => Qlt_bool v b'
  end.

Definition plateau_step (s : Plateau) (v : Q) : Plateau :=
  if is_better v (best s) then
    {| factor := factor s; patience := patience s; best := Some v;
       num_bad_epochs := 0; lr := lr s |}
  else
    let bad := S (num_bad_epochs s) in
    if (patience s <? bad)%nat then
      {| factor := factor s; patience := patience s; best := best s;
         num_bad_epochs := 0; lr := lr s * factor s |}
    else
      {| factor := factor s; patience := patience s; best := best s;
         num_bad_epochs := bad; lr := lr s |}.

#[export] Instance plateau_scheduler : LRScheduler Plateau := {|
  sched_new := plateau_new;
  sched_step := plateau_step;
  sched_lr := lr
|}.

(** ** The world of a run *)

(** What one iteration of the loop receives from outside. *)
Record EpochIn : Type := {
  train_loss : Q;     (* train_epoch *)
  train_acc : Q;
  val_loss : Q;       (* evaluate_network on val_loader *)
  val_acc : Q;
  test_loss : Q;      (* evaluate_network on test_loader *)
  test_acc : Q;
  t_start : Q;        (* time.time() at the top of the body *)
  t_end : Q;          (* time.time() for per_epoch_time *)
  t_print : Q;        (* time.time() inside the printed line *)
  t_check : Q         (* time.time() in the second stop test *)
}.

Record World : Type := {
  t0 : Q;                                  (* time.time() before the loop *)
  epoch_in : nat -> EpochIn;
  remove_fails : nat -> string -> bool;    (* os.remove raises, per epoch *)
  dir0 : Dir;                              (* root_ckpt_dir at the start *)
  final_test_acc : Q;                      (* the evaluation after the loop *)
  final_train_acc : Q;
  t_final : Q
}.

(** ** Output channels *)

(** One [writer.add_scalar(tag, value, step)] call. *)
Record Scalar : Type := {
  tag : string;
  value : Q;
  step : nat
}.

(** The lines printed through [Tools.print] from the loop on. *)
Inductive Msg : Type :=
| MsgStartEpoch (epoch : nat)
| MsgEpoch (secs rate loss_train loss_val loss_test
            acc_train acc_val acc_test : Q)
| MsgLrMin                       (* "!! LR EQUAL TO MIN LR SET." *)
| MsgMaxTime (hours : Q)         (* "Max_time for training elapsed ..." *)
| MsgTestAccuracy (a : Q)
| MsgTrainAccuracy (a : Q)
| MsgTotalTime (secs : Q).

(** Which way the [for] loop was left: the first [break], the second
    [break], or the end of [range(params['epochs'])]. *)
Inductive StopReason : Type :=
| STOPPED_CONVERGED
| STOPPED_TIMEOUT
| STOPPED_MAX_EPOCHS.

(** ** The state of [train_val_pipeline] *)

Record State (S : Type) : Type := {
  sched : S;
  ckpt_dir : Dir;
  writer : list Scalar;
  epoch_train_losses : list Q;
  epoch_val_losses : list Q;
  epoch_train_accs : list Q;
  epoch_val_accs : list Q;
  per_epoch_time : list Q;
  out : list Msg
}.

Arguments sched {S} _.
Arguments ckpt_dir {S} _.
Arguments writer {S} _.
Arguments epoch_train_losses {S} _.
Arguments epoch_val_losses {S} _.
Arguments epoch_train_accs {S} _.
Arguments epoch_val_accs {S} _.
Arguments per_epoch_time {S} _.
Arguments out {S} _.

Definition print {S : Type} (m : Msg) (st : State S) : State S :=
  {| sched := sched st; ckpt_dir := ckpt_dir st; writer := writer st;
     epoch_train_losses := epoch_train_losses st;
     epoch_val_losses := epoch_val_losses st;
     epoch_train_accs := epoch_train_accs st;
     epoch_val_accs := epoch_val_accs st;
     per_epoch_time := per_epoch_time st;
     out := (out st ++ [m])%list |}.

(** The five [writer.add_scalar] calls of one iteration, in order. *)
Definition epoch_scalars (epoch : nat) (i : EpochIn) (rate : Q)
    : list Scalar :=
  [ {| tag := "train/_loss"; value := train_loss i; step := epoch |};
    {| tag := "val/_loss"; value := val_loss i; step := epoch |};
    {| tag := "train/_acc"; value := train_acc i; step := epoch |};
    {| tag := "val/_acc"; value := val_acc i; step := epoch |};
    {| tag := "learning_rate"; value := rate; step := epoch |} ].

Section Pipeline.

Context {S : Type} `{LRScheduler S}.
Variable params : Params.
Variable root_ckpt_dir : string.
Variable W : World.

(** The body of the loop up to and including the printed line. *)
Definition epoch_work (epoch : nat) (st : State S) : Err (State S) :=
  let i := epoch_in W epoch in
  let sched1 := sched_step (sched st) (val_loss i) in
  d <- save_checkpoint (remove_fails W epoch) root_ckpt_dir epoch
         (ckpt_dir st) ;;
  let rate := sched_lr sched1 in
  Ok {| sched := sched1;
        ckpt_dir := d;
        writer := (writer st ++ epoch_scalars epoch i rate)%list;
        epoch_train_losses := (epoch_train_losses st ++ [train_loss i])%list;
        epoch_val_losses := (epoch_val_losses st ++ [val_loss i])%list;
        epoch_train_accs := (epoch_train_accs st ++ [train_acc i])%list;
        epoch_val_accs := (epoch_val_accs st ++ [val_acc i])%list;
        per_epoch_time := (per_epoch_time st ++ [t_end i - t_start i])%list;
        out := (out st ++
                [MsgStartEpoch epoch;
                 MsgEpoch (t_print i - t_start i) rate (train_loss i)
                   (val_loss i) (test_loss i) (train_acc i) (val_acc i)
                   (test_acc i)])%list |}.

(** The two tests under [# Stop training], in the order of the source. *)
Definition stop_check (epoch : nat) (st : State S)
    : State S * option StopReason :=
  if Qlt_bool (sched_lr (sched st)) (min_lr params) then
    (print MsgLrMin st, Some STOPPED_CONVERGED)
  else if Qlt_bool (max_time params * 3600)
                   (t_check (epoch_in W epoch) - t0 W) then
    (print (MsgMaxTime (max_time params)) st, Some STOPPED_TIMEOUT)
  else (st, None).

Definition epoch_body (epoch : nat) (st : State S)
    : Err (State S * option StopReason) :=
  st1 <- epoch_work epoch st ;;
  Ok (stop_check epoch st1).

(** How the loop was left. *)
Record Exit : Type := {
  final : State S;
  reason : StopReason;
  epochs_run : nat
}.

(** [for epoch in range(params['epochs'])], with [n] iterations left. *)
Fixpoint loop (n : nat) (epoch : nat) (st : State S) : Err Exit :=
  match n with
  | O => Ok {| final := st; reason := STOPPED_MAX_EPOCHS;
               epochs_run := epoch |}
  | Datatypes.S n' =>
      r <- epoch_body epoch st ;;
      match r with
      | (st1, Some why) =>
          Ok {| final := st1; reason := why;
                epochs_run := Datatypes.S epoch |}
      | (st1, None) => loop n' (Datatypes.S epoch) st1
      end
  end.

(** The state on entry to the loop, once the optimizer and the
    scheduler have been constructed. *)
Definition init_state : State S :=
  {| sched := sched_new (init_lr params) (lr_reduce_factor params)
                (lr_schedule_patience params);
     ckpt_dir := dir0 W;
     writer := [];
     epoch_train_losses := [];
     epoch_val_losses := [];
     epoch_train_accs := [];
     epoch_val_accs := [];
     per_epoch_time := [];
     out := [] |}.

(** The lines after the loop: two more evaluations and the summary. *)
Definition finish (x : Exit) : Exit :=
  {| final := print (MsgTotalTime (t_final W - t0 W))
                (print (MsgTrainAccuracy (final_train_acc W))
                   (print (MsgTestAccuracy (final_test_acc W)) (final x)));
     reason := reason x;
     epochs_run := epochs_run x |}.

Definition train_val_pipeline : Err Exit :=
  x <- loop (epochs params) 0 init_state ;;
  Ok (finish x).

(** The states of a run: [at_epoch_start e st] when the loop enters
    iteration [e] in state [st]; [at_epoch_end e st stop] when that
    iteration has run to its stop tests with outcome [stop]. *)
Inductive at_epoch_start : nat -> State S -> Prop :=
| start_first :
    (0 < epochs params)%nat -> at_epoch_start 0 init_state
| start_next e st st1 :
    at_epoch_start e st ->
    epoch_body e st = Ok (st1, None) ->
    (Datatypes.S e < epochs params)%nat ->
    at_epoch_start (Datatypes.S e) st1.

Definition at_epoch_end (e : nat) (st1 : State S)
    (stop : option StopReason) : Prop :=
  exists st, at_epoch_start e st /\ epoch_body e st = Ok (st1, stop).

End Pipeline.

(** ** Further notions of [save_checkpoint] and of the loop *)

(** The test of the pruning loop on one entry: matched by ['*.pkl'] and
    carrying a number below [epoch - 1]. *)
Definition doomed (root : string) (epoch : nat) (name : string) : bool :=
  matches_pkl name &&
  match epoch_of_file (path_of root name) with
  | Ok k => (k <? Z.of_nat epoch - 1)%Z
  | Raise _ => false
  end.

(** The scheduler once the validation losses of epochs [0..e] have
    been handed to [scheduler.step], one after the other. *)
Definition sched_after {S : Type} `{LRScheduler S} (params : Params)
    (W : World) (e : nat) : S :=
  fold_left sched_step
    (map (fun k => val_loss (epoch_in W k)) (seq 0 (Datatypes.S e)))
    (sched_new (init_lr params) (lr_reduce_factor params)
       (lr_schedule_patience params)).

(** The two tests under [# Stop training] at the end of epoch [e], on
    the values they read. *)
Definition rate_low {S : Type} `{LRScheduler S} (params : Params)
    (W : World) (e : nat) : Prop :=
  sched_lr (sched_after params W e) < min_lr params.

Definition over_time (params : Params) (W : World) (e : nat) : Prop :=
  max_time params * 3600 < t_check (epoch_in W e) - t0 W.

(** The lines the two [break]s print. *)
Definition is_stop_line (m : Msg) : bool :=
  match m with
  | MsgLrMin | MsgMaxTime _ => true
  | _ => false
  end.

(** ** Where the embedding of the directory is exact *)

(** A directory name that [glob.glob(root_ckpt_dir + '/*.pkl')] takes
    literally: not empty, no trailing slash, none of the wildcard
    characters of [glob] ([*], [?], [[]).  Only then does the listing
    consist of the entries of that directory, as [glob_pkl] has it. *)
Definition plain_root (root : string) : bool :=
  negb (String.eqb root "") && negb (ends_with "/" root) &&
  negb (has_char "*" root) && negb (has_char "?" root) &&
  negb (has_char "[" root).

(** A name of ASCII characters only, on which [int_of_str] is [int]. *)
Fixpoint ascii_only (s : string) : bool :=
  match s with
  | EmptyString => true
  | String a s' => (nat_of_ascii a <? 128)%nat && ascii_only s'
  end.

(** The parameters that the constructors called before the loop
    ([optim.Adam], [ReduceLROnPlateau]) accept: a learning rate that is
    not negative and a factor below 1.  Outside this range they raise
    [ValueError] and the loop is never entered; [init_state] is the
    state once they have returned.  The entries of [params] that are
    not among [Params] (weight decay, batch size) are taken to be
    accepted as well. *)
Definition constructors_accept (params : Params) : Prop :=
  0 <= init_lr params /\ lr_reduce_factor params < 1.

(** ** [view_model_param] *)

(** A numpy scalar: a 64-bit integer or a float. *)
Inductive Num : Type :=
| NInt (z : Z)
| NFloat (q : Q).

(** Two's-complement wrap-around of 64-bit integer arithmetic. *)
Definition wrap64 (z : Z) : Z :=
  ((z + 2 ^ 63) mod 2 ^ 64 - 2 ^ 63)%Z.

(** [np.prod(list(param.data.size()))]: the product in 64-bit
    integers; of an empty size, the float [1.0]. *)
Definition np_prod (size : list nat) : Num :=
  match size with
  | [] => NFloat 1
  | _ => NInt (fold_left (fun acc d => wrap64 (acc * Z.of_nat d)) size 1%Z)
  end.

(** [total_param += ...] *)
Definition num_add (a b : Num) : Num :=
  match a, b with
  | NInt x, NInt y => NInt (wrap64 (x + y))
  | NInt x, NFloat y => NFloat (inject_Z x + y)
  | NFloat x, NInt y => NFloat (x + inject_Z y)
  | NFloat x, NFloat y => NFloat (x + y)
  end.

(** [view_model_param(model)], on the sizes of [model.parameters()]. *)
Definition view_model_param (sizes : list (list nat)) : Num :=
  fold_left (fun total_param size => num_add total_param (np_prod size))
    sizes (NInt 0).

(** The number of entries of a tensor of this size. *)
Definition size_count (size : list nat) : Z :=
  fold_right (fun d p => (Z.of_nat d * p)%Z) 1%Z size.

(** The number of parameters, counted without bound. *)
Definition param_count (sizes : list (list nat)) : Z :=
  fold_right (fun size acc =>
                (fold_right (fun d p => Z.of_nat d * p) 1 size + acc)%Z)
    0%Z sizes.

(** ** [gpu_setup] *)

Inductive Device : Type :=
| cuda
| cpu.

(** [os.environ] *)
Definition Env := list (string * string).

Fixpoint env_get (k : string) (env : Env) : option string :=
  match env with
  | [] => None
  | (k', v) :: rest => if String.eqb k' k then Some v else env_get k rest
  end.

(** [os.environ[k] = v] *)
Fixpoint env_set (k v : string) (env : Env) : Env :=
  match env with
  | [] => [(k, v)]
  | (k', v') :: rest =>
      if String.eqb k' k then (k, v) :: rest
      else (k', v') :: env_set k v rest
  end.

(** [gpu_setup(use_gpu, gpu_id)]; [cuda_available] is the answer of
    [torch.cuda.is_available()], and [gpu_id] is a string, as in
    [main].  The two printed lines are left out. *)
Definition gpu_setup (cuda_available use_gpu : bool) (gpu_id : string)
    (env : Env) : Device * Env :=
  if cuda_available && use_gpu then
    (cuda,
     env_set "CUDA_VISIBLE_DEVICES" gpu_id
       (env_set "CUDA_DEVICE_ORDER" "PCI_BUS_ID" env))
  else (cpu, env).

(** ** [main] *)

(** The values held by the [net_params] dictionary. *)
Inductive Value : Type :=
| VInt (z : Z)
| VFloat (q : Q)
| VBool (b : bool)
| VStr (s : string)
| VDevice (d : Device).

Definition Dict := list (string * Value).

Fixpoint dict_get (k : string) (d : Dict) : option Value :=
  match d with
  | [] => None
  | (k', v) :: rest => if String.eqb k' k then Some v else dict_get k rest
  end.

Fixpoint dict_set (k : string) (v : Value) (d : Dict) : Dict :=
  match d with
  | [] => [(k, v)]
  | (k', v') :: rest =>
      if String.eqb k' k then (k, v) :: rest
      else (k', v') :: dict_set k v rest
  end.

(** What [main] reads of the dataset. *)
Record Dataset : Type := {
  train_nodes : list nat;      (* number_of_nodes() of each train graph *)
  train_edges : list nat;      (* number_of_edges() of each train graph *)
  test_nodes : list nat;       (* number_of_nodes() of each test graph *)
  in_dim : Z;                  (* ndata['feat'][0].size(0), first graph *)
  in_dim_edge : Z;             (* edata['feat'][0].size(0), first graph *)
  num_classes : Z
}.

Inductive MainExn : Type :=
| KeyError (key : string)
| IndexError                   (* [0] on an empty sequence or tensor *)
| MaxOfEmpty                   (* max() of an empty list *)
| TypeError
| RuntimeError                 (* torch.save into a missing directory *)
| Uncaught (x : Exn).          (* raised inside train_val_pipeline *)

Inductive MainResult (A : Type) : Type :=
| Done (a : A)
| Failed (x : MainExn).

Arguments Done {A} a.
Arguments Failed {A} x.

(** The reads [dataset.train[0][0].ndata['feat'][0]] and
    [dataset.train[0][0].edata['feat'][0]] made while [net_params] is
    built: they need a first train graph with a node and an edge. *)
Definition first_graph_read (ds : Dataset) : MainResult unit :=
  match train_nodes ds, train_edges ds with
  | Datatypes.S _ :: _, Datatypes.S _ :: _ => Done tt
  | _, _ => Failed IndexError
  end.

(** The [net_params] dictionary built in [main]. *)
Definition net_params_of_main (batch_size : Z) (ds : Dataset)
    (device : Device) (gpu_id : string) : Dict :=
  [ ("batch_size", VInt batch_size);
    ("L", VInt 4);
    ("hidden_dim", VInt 146);
    ("out_dim", VInt 146);
    ("residual", VBool true);
    ("readout", VStr "mean");
    ("in_feat_dropout", VFloat 0);
    ("dropout", VFloat 0);
    ("graph_norm", VBool true);
    ("batch_norm", VBool true);
    ("self_loop", VBool false);
    ("in_dim", VInt (in_dim ds));
    ("in_dim_edge", VInt (in_dim_edge ds));
    ("n_classes", VInt (num_classes ds));
    ("device", VDevice device);
    ("gpu_id", VStr gpu_id) ].

(** [max([...])] *)
Definition py_max (l : list nat) : MainResult Z :=
  match l with
  | [] => Failed MaxOfEmpty
  | x :: rest => Done (fold_left Z.max (map Z.of_nat rest) (Z.of_nat x))
  end.

(** [int(x)] on a float: towards zero. *)
Definition py_int (q : Q) : Z :=
  if Qle_bool 0 q then Qfloor q else Qceiling q.

(** [int(max_num_node * net_params['pool_ratio']) *
    net_params['batch_size']], for numbers. *)
Definition assign_dim (max_num_node : Z) (net : Dict) : MainResult Z :=
  match dict_get "pool_ratio" net with
  | None => Failed (KeyError "pool_ratio")
  | Some r =>
      match dict_get "batch_size" net with
      | None => Failed (KeyError "batch_size")
      | Some b =>
          match r, b with
          | VFloat q, VInt n =>
              Done (py_int (inject_Z max_num_node * q) * n)%Z
          | VInt k, VInt n => Done (max_num_node * k * n)%Z
          | _, _ => Failed TypeError
          end
      end
  end.

(** ["{}/checkpoints/{}".format(out_dir, file_name)] with the
    [file_name] of [main]; [stamp] is the result of [time.strftime]. *)
Definition main_ckpt_dir
    (out_dir dataset_name model_name gpu_id stamp : string) : string :=
  (out_dir ++ "/checkpoints/" ++
   model_name ++ "_" ++ dataset_name ++ "_GPU" ++ gpu_id ++ "_" ++ stamp)%string.

(** [os.path.basename] *)
Definition basename (path : string) : string := last (split "/" path) "".

(** [Tools.new_dir(path)] comes from a library outside the sources: it
    creates the directory [path], unless the last component of [path]
    holds a dot; then it creates the parent only.  It hands back
    [path] in both cases. *)
Definition new_dir_creates (path : string) : bool :=
  negb (has_char "." (basename path)).

(** [main]: [ckpt_dir_exists] tells whether the checkpoint directory
    was there before, [env] is the environment, [ds] the dataset
    loaded.  When the directory is neither there nor created,
    [torch.save] raises in the first epoch. *)
Definition main {S : Type} `{LRScheduler S}
    (out_dir dataset_name model_name gpu_id stamp : string)
    (use_gpu cuda_available ckpt_dir_exists : bool) (batch_size : Z)
    (ds : Dataset) (env : Env) (W : World) : MainResult (Exit (S := S)) :=
  let device := fst (gpu_setup cuda_available use_gpu gpu_id env) in
  match first_graph_read ds with
  | Failed x => Failed x
  | Done _ =>
      let net_params := net_params_of_main batch_size ds device gpu_id in
      let root_ckpt_dir :=
        main_ckpt_dir out_dir dataset_name model_name gpu_id stamp in
      let run (net : Dict) :=
        if ckpt_dir_exists || new_dir_creates root_ckpt_dir then
          match train_val_pipeline main_params root_ckpt_dir W with
          | Ok x => Done x
          | Raise x => Failed (Uncaught x)
          end
        else Failed RuntimeError in
      if String.eqb model_name "DiffPool" then
        match py_max (train_nodes ds) with
        | Failed x => Failed x
        | Done a =>
            match py_max (test_nodes ds) with
            | Failed x => Failed x
            | Done b =>
                match assign_dim (Z.max a b) net_params with
                | Failed x => Failed x
                | Done v => run (dict_set "assign_dim" (VInt v) net_params)
                end
            end
        end
      else run net_params
  end.

(** ** Notions used by the statements *)

(** The state without its printed lines: the scheduler, the checkpoint
    directory, the scalars written and the histories. *)
Definition quiet {S : Type} (st : State S) : State S :=
  {| sched := sched st; ckpt_dir := ckpt_dir st; writer := writer st;
     epoch_train_losses := epoch_train_losses st;
     epoch_val_losses := epoch_val_losses st;
     epoch_train_accs := epoch_train_accs st;
     epoch_val_accs := epoch_val_accs st;
     per_epoch_time := per_epoch_time st;
     out := [] |}.

(** What a run decided: the exception, or the exit with its state
    stripped of the printed lines. *)
Definition decisions {S : Type} (r : Err (Exit (S := S))) : Err (Exit (S := S)) :=
  match r with
  | Ok x => Ok {| final := quiet (final x); reason := reason x;
                  epochs_run := epochs_run x |}
  | Raise x => Raise x
  end.

(** The same world with other results for the test-set evaluations. *)
Definition with_test (W : World) (tl ta : nat -> Q) (tf : Q) : World :=
  {| t0 := t0 W;
     epoch_in := fun e =>
       let i := epoch_in W e in
       {| train_loss := train_loss i; train_acc := train_acc i;
          val_loss := val_loss i; val_acc := val_acc i;
          test_loss := tl e; test_acc := ta e;
          t_start := t_start i; t_end := t_end i; t_print := t_print i;
          t_check := t_check i |};
     remove_fails := remove_fails W;
     dir0 := dir0 W;
     final_test_acc := tf;
     final_train_acc := final_train_acc W;
     t_final := t_final W |}.

(** The statement of the spec on the metric recorder, in its words:
    the recorder holds, under the epoch's index, each of the six
    loss/accuracy values and the learning rate. *)
Definition records_six_and_rate (w : list Scalar) (e : nat) (i : EpochIn)
    (rate : Q) : Prop :=
  forall v,
    In v [train_loss i; train_acc i; val_loss i; val_acc i;
          test_loss i; test_acc i; rate] ->
    exists t, In {| tag := t; value := v; step := e |} w.

(** The statement of the spec on failed deletions, in its words: no
    failure of [os.remove] ends the run. *)
Definition deletion_failure_ignored {S : Type} (r : Err (Exit (S := S)))
    : Prop :=
  forall path, r <> Raise (OSError path).

(** The statement of the spec on termination, in its words: the loop
    is left through the learning-rate test, its last epoch being
    epoch [n] at the latest. *)
Definition stops_by_epoch {S : Type} (n : nat) (r : Err (Exit (S := S)))
    : Prop :=
  exists x, r = Ok x /\ reason x = STOPPED_CONVERGED /\
            (epochs_run x <= Datatypes.S n)%nat.

(** The learning rate after [k] halvings of 0.001. *)
Definition halved (k : nat) : Q := Nat.iter k (fun r => r * (1 # 2)) (1 # 1000).

(** The rates of the spec's termination example, for any patience,
    epoch count and time budget. *)
Definition floor_params (n p : nat) (hours : Q) : Params :=
  {| epochs := n; init_lr := 1 # 1000; lr_reduce_factor := 1 # 2;
     lr_schedule_patience := p; min_lr := 1 # 100000; max_time := hours |}.

(** ** Sample runs *)

(** An epoch that ends at clock reading [now] with the same metrics
    every time. *)
Definition steady_epoch (now : Q) : EpochIn :=
  {| train_loss := 3 # 10; train_acc := 9 # 10;
     val_loss := 1 # 2; val_acc := 8 # 10;
     test_loss := 7 # 10; test_acc := 6 # 10;
     t_start := now - 9; t_end := now - 1; t_print := now - 1;
     t_check := now |}.

(** Ten seconds per epoch, a validation loss that never moves, an empty
    checkpoint directory and no failing deletion. *)
Definition steady_world : World :=
  {| t0 := 0;
     epoch_in := fun e => steady_epoch (10 * inject_Z (Z.of_nat e) + 10);
     remove_fails := fun _ _ => false;
     dir0 := [];
     final_test_acc := 6 # 10;
     final_train_acc := 9 # 10;
     t_final := 1000 |}.

(** A rate already under the floor and no time budget at all. *)
Definition tiny_rate_params : Params :=
  {| epochs := 3; init_lr := 1 # 1000000; lr_reduce_factor := 1 # 2;
     lr_schedule_patience := 5; min_lr := 1 # 100000; max_time := 0 |}.

(** A dataset of one train and one test graph. *)
Definition small_dataset : Dataset :=
  {| train_nodes := [75%nat]; train_edges := [600%nat];
     test_nodes := [70%nat];
     in_dim := 3%Z; in_dim_edge := 1%Z; num_classes := 10%Z |}.

(** A scheduler of patience 1 that has seen a best loss of 0.5. *)
Definition waiting_plateau : Plateau :=
  {| factor := 1 # 2; patience := 1; best := Some (1 # 2);
     num_bad_epochs := 0; lr := 1 # 1000 |}.

(** Five epochs at most, with the rates of [main]. *)
Definition short_params : Params := floor_params 5 5 48.

(** The steady world, except that the checkpoint of epoch 0 cannot be
    deleted. *)
Definition locked_world : World :=
  {| t0 := t0 steady_world;
     epoch_in := epoch_in steady_world;
     remove_fails := fun _ f => String.eqb f "epoch_0.pkl";
     dir0 := [];
     final_test_acc := final_test_acc steady_world;
     final_train_acc := final_train_acc steady_world;
     t_final := t_final steady_world |}.

Example ckpt_name_12 : ckpt_name 12 = "epoch_12.pkl".
Proof. reflexivity. Qed.

Example epoch_of_file_12 :
  epoch_of_file "out/checkpoints/GCN_MNIST_GPU0_x/epoch_12.pkl" = Ok 12%Z.
Proof. reflexivity. Qed.

Example int_of_str_blank : int_of_str " 7" = Ok 7%Z.
Proof. reflexivity. Qed.

Example int_of_str_file_separator :
  int_of_str (String "028"%char "7") = Raise (ValueError (String "028"%char "7")).
Proof. reflexivity. Qed.

Example int_of_str_minus : int_of_str "-5" = Ok (-5)%Z.
Proof. reflexivity. Qed.

Example int_of_str_two_signs : int_of_str "+-5" = Raise (ValueError "+-5").
Proof. reflexivity. Qed.

Example epoch_of_file_foreign :
  epoch_of_file "run_a/model.pkl" = Raise (ValueError "a/model").
Proof. reflexivity. Qed.

Example split_empty : split "_" "" = [""].
Proof. reflexivity. Qed.

Example split_three : split "_" "a__b" = ["a"; ""; "b"].
Proof. reflexivity. Qed.

Example save_2 :
  save_checkpoint (fun _ => false) "run_a" 2 ["epoch_0.pkl"; "epoch_1.pkl"]
  = Ok ["epoch_1.pkl"; "epoch_2.pkl"].
Proof. reflexivity. Qed.

(** * Facts about strings and checkpoint names *)

Section Names.

Local Open Scope string_scope.

Lemma app_assoc_str (s1 s2 s3 : string) :
  (s1 ++ s2) ++ s3 = s1 ++ (s2 ++ s3).
Proof.
  induction s1 as [|a s1 IH]; simpl; [reflexivity|now rewrite IH].
Qed.

Lemma split_nonempty c s : split c s <> [].
Proof.
  destruct s as [|a s]; simpl; [discriminate|].
  destruct (Ascii.eqb a c); [discriminate|].
  destruct (split c s); discriminate.
Qed.

Lemma split_none c s : has_char c s = false -> split c s = [s].
Proof.
  induction s as [|a s IH]; simpl; intros Hc; [reflexivity|].
  apply orb_false_elim in Hc as [Ha Hs].
  rewrite Ha, (IH Hs). reflexivity.
Qed.

Lemma split_last_app c s1 s2 :
  last (split c (s1 ++ String c s2)) "" = last (split c s2) "".
Proof.
  induction s1 as [|a s1 IH]; simpl.
  - rewrite Ascii.eqb_refl.
    destruct (split c s2) eqn:E; [now apply split_nonempty in E|reflexivity].
  - destruct (Ascii.eqb a c).
    + destruct (split c (s1 ++ String c s2)) eqn:E;
        [now apply split_nonempty in E|exact IH].
    + destruct (split c (s1 ++ String c s2)) as [|w ws] eqn:E;
        [now apply split_nonempty in E|].
      destruct ws; [|exact IH].
      (* one piece only: impossible, the separator occurs *)
      exfalso. clear IH.
      assert (Hlen : forall t, (2 <= List.length (split c (t ++ String c s2)))%nat).
      { clear. induction t as [|b t IHt]; simpl.
        - rewrite Ascii.eqb_refl. simpl.
          destruct (split c s2) eqn:E; [now apply split_nonempty in E|].
          simpl. lia.
        - destruct (Ascii.eqb b c); simpl; [lia|].
          destruct (split c (t ++ String c s2)); simpl in *; lia. }
      specialize (Hlen s1). rewrite E in Hlen. simpl in Hlen. lia.
Qed.

Lemma split_hd_app c s1 s2 :
  has_char c s1 = false -> hd "" (split c (s1 ++ String c s2)) = s1.
Proof.
  induction s1 as [|a s1 IH]; simpl; intros Hc.
  - now rewrite Ascii.eqb_refl.
  - apply orb_false_elim in Hc as [Ha Hs]. rewrite Ha.
    specialize (IH Hs).
    destruct (split c (s1 ++ String c s2)); simpl in *; now subst.
Qed.

Lemma has_char_app c s1 s2 :
  has_char c (s1 ++ s2) = has_char c s1 || has_char c s2.
Proof.
  induction s1 as [|a s1 IH]; simpl; [reflexivity|].
  now rewrite IH, orb_assoc.
Qed.

(** A printed number has digits only. *)
Lemma uint_all_digits (d : Decimal.uint) :
  all_digits (NilEmpty.string_of_uint d) = true.
Proof. induction d; simpl; auto. Qed.

Lemma all_digits_no_char (c : ascii) (s : string) :
  is_digit c = false -> all_digits s = true -> has_char c s = false.
Proof.
  intros Hc. induction s as [|a s IH]; simpl; [reflexivity|].
  intros Hs. apply andb_prop in Hs as [Ha Hs]. rewrite (IH Hs).
  destruct (Ascii.eqb_spec a c) as [->|]; [congruence|reflexivity].
Qed.

Lemma digit_not_space (a : ascii) : is_digit a = true -> is_space a = false.
Proof.
  destruct a as [[] [] [] [] [] [] [] []]; cbv; congruence.
Qed.

Lemma all_digits_strip (s : string) :
  all_digits s = true -> rstrip (lstrip s) = s.
Proof.
  intros Hs.
  assert (Hl : lstrip s = s).
  { destruct s as [|a s]; [reflexivity|]. simpl in *.
    apply andb_prop in Hs as [Ha _].
    now rewrite (digit_not_space a Ha). }
  rewrite Hl. clear Hl.
  induction s as [|a s IH]; [reflexivity|]. simpl in *.
  apply andb_prop in Hs as [Ha Hs]. rewrite (IH Hs).
  rewrite (digit_not_space a Ha). now destruct s.
Qed.

Lemma digits_no_sep (c : ascii) (d : Decimal.uint) :
  c = "_"%char \/ c = "."%char ->
  has_char c (NilEmpty.string_of_uint d) = false.
Proof.
  intros Hc. apply all_digits_no_char; [|apply uint_all_digits].
  destruct Hc as [-> | ->]; reflexivity.
Qed.

Lemma str_of_nat_digits (n : nat) :
  exists u, u <> Decimal.Nil /\
            str_of_int (Z.of_nat n) = NilEmpty.string_of_uint u /\
            Z.to_int (Z.of_nat n) = Decimal.Pos u.
Proof.
  unfold str_of_int. destruct (Z.of_nat n) eqn:E; simpl.
  - exists (Decimal.D0 Decimal.Nil). repeat split. discriminate.
  - exists (Pos.to_uint p). split; [apply Unsigned.to_uint_nonnil|].
    split; [|reflexivity].
    unfold NilZero.string_of_uint.
    destruct (Pos.to_uint p) eqn:Ep; try reflexivity.
    now apply Unsigned.to_uint_nonnil in Ep.
  - lia.
Qed.

Lemma int_of_str_of_nat (n : nat) :
  int_of_str (str_of_int (Z.of_nat n)) = Ok (Z.of_nat n).
Proof.
  destruct (str_of_nat_digits n) as (u & Hu & Hs & Hi).
  unfold int_of_str.
  rewrite Hs, all_digits_strip by apply uint_all_digits.
  assert (Hparse :
    match NilEmpty.string_of_uint u with
    | String "+" s' => option_map Decimal.Pos (NilZero.uint_of_string s')
    | s' => NilZero.int_of_string s'
    end = NilZero.int_of_string (NilEmpty.string_of_uint u)).
  { destruct u; reflexivity. }
  rewrite Hparse, <- Hs. unfold str_of_int.
  rewrite NilZero.isi.
  - now rewrite DecimalZ.of_to.
  - rewrite Hi. intros [= ->]. now apply Hu.
  - rewrite Hi. discriminate.
Qed.

(** The epoch written into a checkpoint name is read back from its
    path, whatever the directory is called. *)
Lemma epoch_of_ckpt (root : string) (e : nat) :
  epoch_of_file (path_of root (ckpt_name e)) = Ok (Z.of_nat e).
Proof.
  unfold epoch_of_file, path_of, ckpt_name.
  destruct (str_of_nat_digits e) as (u & Hu & Hs & Hi).
  replace (root ++ "/" ++ "epoch_" ++ str_of_int (Z.of_nat e) ++ ".pkl")
    with ((root ++ "/epoch") ++
          String "_" (str_of_int (Z.of_nat e) ++ ".pkl")).
  2:{ rewrite app_assoc_str. reflexivity. }
  rewrite split_last_app.
  rewrite (split_none "_").
  2:{ rewrite has_char_app, Hs, digits_no_sep by auto. reflexivity. }
  simpl last.
  change (str_of_int (Z.of_nat e) ++ ".pkl")
    with (str_of_int (Z.of_nat e) ++ String "." "pkl").
  rewrite split_hd_app.
  - apply int_of_str_of_nat.
  - rewrite Hs. apply digits_no_sep. auto.
Qed.

Lemma ckpt_name_inj (a b : nat) : ckpt_name a = ckpt_name b -> a = b.
Proof.
  intros E.
  pose proof (epoch_of_ckpt "" a) as Ha.
  rewrite E, epoch_of_ckpt in Ha.
  injection Ha as Ha. lia.
Qed.

Lemma ckpt_eqb (a b : nat) :
  String.eqb (ckpt_name a) (ckpt_name b) = Nat.eqb a b.
Proof.
  destruct (Nat.eqb_spec a b) as [->|Hne].
  - apply String.eqb_refl.
  - apply String.eqb_neq. intros E. now apply ckpt_name_inj in E.
Qed.

Lemma ends_with_app (suffix p : string) : ends_with suffix (p ++ suffix) = true.
Proof.
  induction p as [|a p IH].
  - destruct suffix; simpl; [reflexivity|].
    now rewrite Ascii.eqb_refl, String.eqb_refl.
  - change (ends_with suffix (String a p ++ suffix))
      with (if String.eqb (String a (p ++ suffix)) suffix then true
            else ends_with suffix (p ++ suffix)).
    rewrite IH. now destruct (String.eqb _ _).
Qed.

Lemma ckpt_matches (e : nat) : matches_pkl (ckpt_name e) = true.
Proof.
  unfold matches_pkl, ckpt_name.
  rewrite <- app_assoc_str, ends_with_app. reflexivity.
Qed.

End Names.

(** * Facts about [save_checkpoint] *)

Section Checkpoints.

Variable rm_fails : string -> bool.
Variable root : string.

Lemma write_file_In (name : string) (d : Dir) : In name (write_file name d).
Proof.
  unfold write_file. destruct (existsb (String.eqb name) d) eqn:E.
  - apply existsb_exists in E as (x & Hx & Ex).
    apply String.eqb_eq in Ex. now subst.
  - apply in_or_app. right. now left.
Qed.

Lemma remove_file_In (x f : string) (d : Dir) :
  In x (remove_file f d) <-> In x d /\ x <> f.
Proof.
  unfold remove_file. rewrite filter_In, negb_true_iff, String.eqb_neq.
  reflexivity.
Qed.

(** The pruning loop only deletes. *)
Lemma prune_subset (e : nat) (files : list string) :
  forall d d' x, prune rm_fails root e files d = Ok d' -> In x d' -> In x d.
Proof.
  induction files as [|f rest IH]; simpl; intros d d' x Hp Hx.
  - now injection Hp as <-.
  - destruct (epoch_of_file (path_of root f)) as [k|]; simpl in Hp;
      [|discriminate].
    destruct (k <? Z.of_nat e - 1)%Z.
    + destruct (rm_fails f || negb (existsb (String.eqb f) d));
        [discriminate|].
      apply (IH _ _ _ Hp) in Hx. now apply remove_file_In in Hx.
    + eauto.
Qed.

(** It keeps every entry whose epoch is not below [e - 1]. *)
Lemma prune_keeps (e : nat) (files : list string) :
  forall d d' x,
    prune rm_fails root e files d = Ok d' ->
    In x d ->
    (forall k, epoch_of_file (path_of root x) = Ok k ->
               ~ (k < Z.of_nat e - 1)%Z) ->
    In x d'.
Proof.
  induction files as [|f rest IH]; simpl; intros d d' x Hp Hx Hk.
  - now injection Hp as <-.
  - destruct (epoch_of_file (path_of root f)) as [k|] eqn:Ef; simpl in Hp;
      [|discriminate].
    destruct (Z.ltb_spec k (Z.of_nat e - 1)) as [Hlt|Hge].
    + destruct (rm_fails f || negb (existsb (String.eqb f) d));
        [discriminate|].
      apply (IH _ _ _ Hp); [|exact Hk].
      apply remove_file_In. split; [exact Hx|].
      intros ->. exact (Hk _ Ef Hlt).
    + eauto.
Qed.

(** The checkpoint just written survives the pruning that follows. *)
Lemma save_keeps_current (e : nat) (d d' : Dir) :
  save_checkpoint rm_fails root e d = Ok d' -> In (ckpt_name e) d'.
Proof.
  unfold save_checkpoint. intros Hp.
  apply (prune_keeps _ _ _ _ _ Hp); [apply write_file_In|].
  intros k. rewrite epoch_of_ckpt. intros [= <-]. lia.
Qed.

(** The first save into an empty directory leaves its own file. *)
Lemma save_first : save_checkpoint rm_fails root 0 [] = Ok (retained 0).
Proof.
  unfold save_checkpoint, write_file, glob_pkl, retained. cbn [existsb app].
  cbn [filter]. rewrite ckpt_matches. cbn [prune].
  rewrite epoch_of_ckpt. reflexivity.
Qed.

(** The second save has nothing to delete. *)
Lemma save_second : save_checkpoint rm_fails root 1 (retained 0) = Ok (retained 1).
Proof.
  unfold save_checkpoint, write_file, glob_pkl, retained.
  cbn [existsb]. rewrite ckpt_eqb. cbn [Nat.eqb orb app filter].
  rewrite !ckpt_matches. cbn [prune]. rewrite !epoch_of_ckpt.
  reflexivity.
Qed.

(** From the third save on, exactly the checkpoint two epochs back is
    deleted, and a deletion that fails raises. *)
Lemma save_later (k : nat) :
  save_checkpoint rm_fails root (S (S k)) (retained (S k)) =
  if rm_fails (ckpt_name k)
  then Raise (OSError (path_of root (ckpt_name k)))
  else Ok (retained (S (S k))).
Proof.
  unfold save_checkpoint, write_file, glob_pkl, retained.
  cbn [existsb]. rewrite !ckpt_eqb.
  destruct (Nat.eqb_spec (S (S k)) k); [lia|].
  destruct (Nat.eqb_spec (S (S k)) (S k)); [lia|].
  cbn [orb app filter]. rewrite !ckpt_matches. cbn [prune].
  rewrite !epoch_of_ckpt. cbn [bind existsb].
  rewrite String.eqb_refl. cbn [orb negb]. rewrite orb_false_r.
  destruct (Z.ltb_spec (Z.of_nat k) (Z.of_nat (S (S k)) - 1)); [|lia].
  destruct (rm_fails (ckpt_name k)); [reflexivity|].
  unfold remove_file. cbn [filter]. rewrite !ckpt_eqb, Nat.eqb_refl.
  destruct (Nat.eqb_spec (S k) k); [lia|].
  destruct (Nat.eqb_spec (S (S k)) k); [lia|].
  cbn [negb].
  destruct (Z.ltb_spec (Z.of_nat (S k)) (Z.of_nat (S (S k)) - 1)); [lia|].
  destruct (Z.ltb_spec (Z.of_nat (S (S k))) (Z.of_nat (S (S k)) - 1));
    [lia|].
  reflexivity.
Qed.

(** A later save that completes leaves the two newest checkpoints. *)
Lemma save_next (e : nat) (d : Dir) :
  save_checkpoint rm_fails root (S e) (retained e) = Ok d ->
  d = retained (S e).
Proof.
  destruct e as [|k].
  - rewrite save_second. now intros [= <-].
  - rewrite save_later. destruct (rm_fails (ckpt_name k)); [discriminate|].
    now intros [= <-].
Qed.

(** A deletion that fails makes the pruning loop raise [OSError],
    provided every listed name carries a number. *)
Lemma prune_raises (e : nat) (files : list string) :
  forall (d : Dir) (f : string) (k : Z),
    Forall (fun g => exists j, epoch_of_file (path_of root g) = Ok j) files ->
    In f files ->
    epoch_of_file (path_of root f) = Ok k ->
    (k < Z.of_nat e - 1)%Z ->
    rm_fails f = true ->
    exists g, In g files /\
      prune rm_fails root e files d = Raise (OSError (path_of root g)).
Proof.
  induction files as [|h rest IH]; intros d f k Hall Hin Hk Hlt Hrm;
    [contradiction|].
  inversion Hall as [|? ? [j Hj] Hrest]; subst. cbn [prune].
  rewrite Hj. cbn [bind].
  assert (Hnext : forall d0, h <> f -> exists g, In g (h :: rest) /\
            prune rm_fails root e rest d0 = Raise (OSError (path_of root g))).
  { intros d0 Hne. destruct Hin as [->|Hin]; [contradiction|].
    destruct (IH d0 f k Hrest Hin Hk Hlt Hrm) as (g & Hg & Hp).
    exists g. split; [now right|exact Hp]. }
  destruct (Z.ltb_spec j (Z.of_nat e - 1)) as [Hj1|Hj1].
  - destruct (rm_fails h || negb (existsb (String.eqb h) d)) eqn:Eh.
    + exists h. split; [now left|reflexivity].
    + apply Hnext. intros ->. rewrite Hrm in Eh. discriminate.
  - apply Hnext. intros ->. rewrite Hk in Hj. injection Hj as <-. lia.
Qed.

End Checkpoints.

(** * Facts about the loop, for any scheduler *)

Section Runs.

Context {S : Type} `{LRScheduler S}.
Variable params : Params.
Variable root : string.
Variable W : World.

Lemma stop_check_fields (e : nat) (st : State S) :
  let st1 := fst (stop_check params W e st) in
  sched st1 = sched st /\ ckpt_dir st1 = ckpt_dir st /\
  writer st1 = writer st /\
  epoch_train_losses st1 = epoch_train_losses st /\
  epoch_val_losses st1 = epoch_val_losses st /\
  epoch_train_accs st1 = epoch_train_accs st /\
  epoch_val_accs st1 = epoch_val_accs st /\
  per_epoch_time st1 = per_epoch_time st.
Proof.
  unfold stop_check.
  destruct (Qlt_bool _ _); [|destruct (Qlt_bool _ _)]; cbn; repeat split.
Qed.

Lemma stop_check_reason (e : nat) (st : State S) :
  snd (stop_check params W e st) =
  if Qlt_bool (sched_lr (sched st)) (min_lr params)
  then Some STOPPED_CONVERGED
  else if Qlt_bool (max_time params * 3600)
                   (t_check (epoch_in W e) - t0 W)
       then Some STOPPED_TIMEOUT
       else None.
Proof.
  unfold stop_check.
  destruct (Qlt_bool _ _); [|destruct (Qlt_bool _ _)]; reflexivity.
Qed.

(** What an iteration that completes has done. *)
Lemma epoch_body_inv (e : nat) (st st1 : State S) (stop : option StopReason) :
  epoch_body params root W e st = Ok (st1, stop) ->
  save_checkpoint (remove_fails W e) root e (ckpt_dir st)
    = Ok (ckpt_dir st1) /\
  sched st1 = sched_step (sched st) (val_loss (epoch_in W e)) /\
  writer st1 = (writer st ++
                epoch_scalars e (epoch_in W e) (sched_lr (sched st1)))%list /\
  stop = (if Qlt_bool (sched_lr (sched st1)) (min_lr params)
          then Some STOPPED_CONVERGED
          else if Qlt_bool (max_time params * 3600)
                           (t_check (epoch_in W e) - t0 W)
               then Some STOPPED_TIMEOUT
               else None).
Proof.
  unfold epoch_body, epoch_work.
  destruct (save_checkpoint _ _ _ _) as [d|x]; cbn [bind]; [|discriminate].
  intros E. injection E as E.
  match type of E with
  | stop_check _ _ _ ?s = _ =>
      pose proof (stop_check_fields e s) as F;
      pose proof (stop_check_reason e s) as R;
      rewrite E in F, R; cbn in F, R
  end.
  destruct F as (F1 & F2 & F3 & _).
  rewrite F1, F2, F3. repeat split. exact R.
Qed.

Lemma at_epoch_start_lt (e : nat) (st : State S) :
  at_epoch_start params root W e st -> (e < epochs params)%nat.
Proof. now destruct 1. Qed.

(** A run is a function of the parameters and the world. *)
Lemma at_epoch_start_det (e : nat) (st st' : State S) :
  at_epoch_start params root W e st ->
  at_epoch_start params root W e st' -> st = st'.
Proof.
  intros H1. revert st'.
  induction H1 as [Hpos | e st st1 Hs IH Hb Hlt]; intros st' H2.
  - now inversion H2.
  - inversion H2 as [|e0 st0 st10 Hs0 Hb0 Hlt0]; subst.
    apply IH in Hs0. subst st0. congruence.
Qed.

Lemma at_epoch_end_det (e : nat) (st st' : State S)
    (stop stop' : option StopReason) :
  at_epoch_end params root W e st stop ->
  at_epoch_end params root W e st' stop' -> st = st' /\ stop = stop'.
Proof.
  intros (s & Hs & Hb) (s' & Hs' & Hb').
  rewrite (at_epoch_start_det _ _ _ Hs Hs') in Hb.
  split; congruence.
Qed.

(** An epoch after the first is entered from the end of the one before. *)
Lemma at_epoch_start_prev (e : nat) (st : State S) :
  at_epoch_start params root W (Datatypes.S e) st ->
  at_epoch_end params root W e st None.
Proof.
  inversion 1; subst. eexists; eauto.
Qed.

(** The loop from the start agrees with the loop resumed at any state
    the run passes through. *)
Lemma loop_resume (e : nat) (st : State S) :
  at_epoch_start params root W e st ->
  loop params root W (epochs params) 0 (init_state params W) =
  loop params root W (epochs params - e) e st.
Proof.
  induction 1 as [Hpos | e st st1 Hs IH Hb Hlt].
  - now rewrite Nat.sub_0_r.
  - rewrite IH.
    replace (epochs params - e)%nat
      with (Datatypes.S (epochs params - Datatypes.S e)) by lia.
    cbn [loop]. rewrite Hb. reflexivity.
Qed.

(** An iteration that takes a [break] ends the loop. *)
Lemma loop_break (e : nat) (st : State S) (why : StopReason) :
  at_epoch_end params root W e st (Some why) ->
  loop params root W (epochs params) 0 (init_state params W) =
  Ok {| final := st; reason := why; epochs_run := Datatypes.S e |}.
Proof.
  intros (s & Hs & Hb). rewrite (loop_resume _ _ Hs).
  pose proof (at_epoch_start_lt _ _ Hs).
  replace (epochs params - e)%nat
    with (Datatypes.S (epochs params - Datatypes.S e)) by lia.
  cbn [loop]. now rewrite Hb.
Qed.

(** The last iteration of the range ends the loop too. *)
Lemma loop_exhaust (e : nat) (st : State S) :
  at_epoch_end params root W e st None ->
  Datatypes.S e = epochs params ->
  loop params root W (epochs params) 0 (init_state params W) =
  Ok {| final := st; reason := STOPPED_MAX_EPOCHS;
        epochs_run := Datatypes.S e |}.
Proof.
  intros (s & Hs & Hb) He. rewrite (loop_resume _ _ Hs).
  rewrite <- He.
  replace (Datatypes.S e - e)%nat with 1%nat by lia.
  cbn [loop]. now rewrite Hb.
Qed.

(** An exception in an iteration leaves the loop and the pipeline. *)
Lemma loop_raise (e : nat) (st : State S) (x : Exn) :
  at_epoch_start params root W e st ->
  epoch_body params root W e st = Raise x ->
  loop params root W (epochs params) 0 (init_state params W) = Raise x.
Proof.
  intros Hs Hb. rewrite (loop_resume _ _ Hs).
  pose proof (at_epoch_start_lt _ _ Hs).
  replace (epochs params - e)%nat
    with (Datatypes.S (epochs params - Datatypes.S e)) by lia.
  cbn [loop]. now rewrite Hb.
Qed.

(** Every normal exit of the loop is the end of its last iteration. *)
Lemma loop_exit_inv (n : nat) :
  forall (e : nat) (st : State S) (x : Exit),
    at_epoch_start params root W e st ->
    (e + Datatypes.S n = epochs params)%nat ->
    loop params root W (Datatypes.S n) e st = Ok x ->
    exists e' stop,
      epochs_run x = Datatypes.S e' /\
      at_epoch_end params root W e' (final x) stop /\
      (stop = Some (reason x) \/
       stop = None /\ reason x = STOPPED_MAX_EPOCHS /\
       Datatypes.S e' = epochs params).
Proof.
  induction n as [|n IH]; intros e st x Hs He; cbn [loop].
  - destruct (epoch_body params root W e st) as [[st1 [why|]]|] eqn:Hb;
      cbn [bind]; intros [= <-]; cbn.
    + exists e, (Some why). repeat split; [exists st; auto|now left].
    + exists e, None. repeat split; [exists st; auto|].
      right. repeat split. lia.
  - destruct (epoch_body params root W e st) as [[st1 [why|]]|] eqn:Hb;
      cbn [bind]; [intros [= <-]; cbn| |discriminate].
    + exists e, (Some why). repeat split; [exists st; auto|now left].
    + apply IH; [|lia]. econstructor; eauto. lia.
Qed.

Lemma loop_exit (x : Exit) :
  loop params root W (epochs params) 0 (init_state params W) = Ok x ->
  (epochs params = 0%nat /\ epochs_run x = 0%nat /\
   final x = init_state params W /\ reason x = STOPPED_MAX_EPOCHS) \/
  exists e' stop,
    epochs_run x = Datatypes.S e' /\
    at_epoch_end params root W e' (final x) stop /\
    (stop = Some (reason x) \/
     stop = None /\ reason x = STOPPED_MAX_EPOCHS /\
     Datatypes.S e' = epochs params).
Proof.
  destruct (epochs params) as [|n] eqn:En.
  - cbn. intros [= <-]. left. auto.
  - intros Hl. right. rewrite <- En.
    apply (loop_exit_inv n 0 (init_state params W)); auto.
    constructor. lia.
Qed.

End Runs.

(** * The claims *)

Lemma Qlt_bool_iff (x y : Q) : Qlt_bool x y = true <-> x < y.
Proof.
  unfold Qlt_bool. rewrite negb_true_iff. split.
  - intros E. apply Qnot_le_lt. intros L.
    apply Qle_bool_iff in L. congruence.
  - intros L. destruct (Qle_bool y x) eqn:E; [|reflexivity].
    apply Qle_bool_iff in E. now apply Qlt_not_le in L.
Qed.

Lemma Qlt_bool_false (x y : Q) : Qlt_bool x y = false <-> ~ x < y.
Proof.
  rewrite <- Qlt_bool_iff. destruct (Qlt_bool x y); split; congruence.
Qed.

(** Builds the history of a concrete run, one iteration at a time. *)
Ltac reach :=
  lazymatch goal with
  | |- at_epoch_start _ _ _ O _ => apply start_first; cbn; lia
  | |- at_epoch_start _ _ _ (Datatypes.S _) _ =>
      eapply start_next; [reach | vm_compute; reflexivity | cbn; lia]
  | |- at_epoch_end _ _ _ _ _ _ =>
      eexists; split; [reach | vm_compute; reflexivity]
  end.

(** C1. If, at the end of an epoch, the learning rate is below
    [min_lr] and the time since [t0] exceeds [max_time * 3600], the
    loop is left through the first [break]: the reason is
    [STOPPED_CONVERGED], the line printed last is the learning-rate
    one, and the loop returns at that epoch. *)
Theorem C1_floor_checked_before_timeout
    {S : Type} `{LRScheduler S} (params : Params) (root : string)
    (W : World) (e : nat) (st : State S) (stop : option StopReason) :
  at_epoch_end params root W e st stop ->
  sched_lr (sched st) < min_lr params ->
  max_time params * 3600 < t_check (epoch_in W e) - t0 W ->
  stop = Some STOPPED_CONVERGED /\
  (exists o, out st = (o ++ [MsgLrMin])%list) /\
  loop params root W (epochs params) 0 (init_state params W) =
    Ok {| final := st; reason := STOPPED_CONVERGED;
          epochs_run := Datatypes.S e |}.
Proof.
  intros Hend Hlr Htime.
  assert (Hstop : stop = Some STOPPED_CONVERGED).
  { destruct Hend as (s & _ & Hb).
    apply epoch_body_inv in Hb as (_ & _ & _ & ->).
    apply Qlt_bool_iff in Hlr. now rewrite Hlr. }
  subst stop. split; [reflexivity|]. split.
  - destruct Hend as (s & _ & Hb). unfold epoch_body in Hb.
    destruct (epoch_work root W e s) as [st1|]; cbn [bind] in Hb;
      [|discriminate].
    injection Hb as Hb. unfold stop_check in Hb.
    destruct (Qlt_bool (sched_lr (sched st1)) (min_lr params)).
    + injection Hb as <-. now exists (out st1).
    + destruct (Qlt_bool _ _); discriminate.
  - now apply loop_break.
Qed.

Lemma C1_floor_checked_before_timeout_witness :
  exists st : State Plateau,
    at_epoch_end tiny_rate_params "run" steady_world 0 st
      (Some STOPPED_CONVERGED) /\
    loop tiny_rate_params "run" steady_world 3 0
      (init_state tiny_rate_params steady_world) =
    Ok {| final := st; reason := STOPPED_CONVERGED; epochs_run := 1 |}.
Proof.
  eexists. split.
  - reach.
  - refine (proj2 (proj2 (C1_floor_checked_before_timeout
              tiny_rate_params "run" steady_world 0 _ _ _ _ _))).
    + reach.
    + vm_compute. reflexivity.
    + vm_compute. reflexivity.
Defined.

(** ** The checkpoint directory over a run *)

Section RunDirectory.

Context {S : Type} `{LRScheduler S}.
Variable params : Params.
Variable root : string.
Variable W : World.
Hypothesis fresh : dir0 W = [].

Lemma run_dir_end_of_start (e : nat) (s st : State S)
    (stop : option StopReason) :
  ckpt_dir s = match e with O => [] | Datatypes.S k => retained k end ->
  epoch_body params root W e s = Ok (st, stop) ->
  ckpt_dir st = retained e.
Proof.
  intros Hd Hb. apply epoch_body_inv in Hb as (Hsave & _).
  rewrite Hd in Hsave. destruct e as [|k].
  - rewrite save_first in Hsave. now injection Hsave.
  - symmetry. now apply save_next in Hsave.
Qed.

Lemma run_dir_start (e : nat) (st : State S) :
  at_epoch_start params root W e st ->
  ckpt_dir st = match e with O => [] | Datatypes.S k => retained k end.
Proof.
  induction 1 as [Hpos | e st st1 Hs IH Hb Hlt].
  - exact fresh.
  - exact (run_dir_end_of_start _ _ _ _ IH Hb).
Qed.

Lemma run_dir_end (e : nat) (st : State S) (stop : option StopReason) :
  at_epoch_end params root W e st stop -> ckpt_dir st = retained e.
Proof.
  intros (s & Hs & Hb).
  exact (run_dir_end_of_start _ _ _ _ (run_dir_start _ _ Hs) Hb).
Qed.

End RunDirectory.

(** C2. In a run that starts with an empty checkpoint directory,
    whose name [glob] takes literally, once the save of epoch [e] has
    completed: for [e = 0] the directory is what the write left,
    nothing was deleted; for [e >= 1] its entries are exactly the
    checkpoints of epochs [e] and [e - 1], and no checkpoint of an
    epoch below [e - 1] is left. *)
Theorem C2_two_newest_checkpoints_kept
    {S : Type} `{LRScheduler S} (params : Params) (root : string)
    (W : World) (e : nat) (st : State S) (stop : option StopReason) :
  plain_root root = true ->
  dir0 W = [] ->
  at_epoch_end params root W e st stop ->
  (e = 0%nat ->
   ckpt_dir st = write_file (ckpt_name 0) (dir0 W) /\
   ckpt_dir st = [ckpt_name 0]) /\
  ((1 <= e)%nat ->
   (forall f, In f (ckpt_dir st) <->
              f = ckpt_name e \/ f = ckpt_name (e - 1)) /\
   NoDup (ckpt_dir st) /\
   (forall k, (k < e - 1)%nat -> ~ In (ckpt_name k) (ckpt_dir st))).
Proof.
  intros _ Hfresh Hend.
  rewrite (run_dir_end params root W Hfresh e st stop Hend). split.
  - intros ->. rewrite Hfresh. split; reflexivity.
  - intros He. destruct e as [|k]; [lia|].
    replace (Datatypes.S k - 1)%nat with k by lia.
    cbn [retained]. split; [|split].
    + intros f. cbn [In]. intuition congruence.
    + repeat constructor; cbn [In].
      * intros [E|[]]. apply ckpt_name_inj in E. lia.
      * intros [].
    + intros j Hj [E|[E|[]]]; apply ckpt_name_inj in E; lia.
Qed.

Lemma C2_two_newest_checkpoints_kept_witness :
  exists st : State Plateau,
    at_epoch_end short_params "run" steady_world 2 st None /\
    forall f, In f (ckpt_dir st) <->
              f = "epoch_2.pkl"%string \/ f = "epoch_1.pkl"%string.
Proof.
  eexists. split.
  - reach.
  - refine (proj1 (proj2 (C2_two_newest_checkpoints_kept
              short_params "run" steady_world 2 _ None _ _ _) _)).
    + reflexivity.
    + reflexivity.
    + reach.
    + lia.
Defined.

(** C10. The body of the loop saves the checkpoint before it comes to
    the stop tests: the state those tests look at holds the checkpoint
    of the current epoch, and the tests leave the directory alone.  So
    whenever the loop is left normally after at least one epoch, for
    whichever of the three reasons, the checkpoint of the last epoch
    run is in the directory the pipeline returns. *)
Theorem C10_checkpoint_saved_before_stop_tests
    {S : Type} `{LRScheduler S} (params : Params) (root : string)
    (W : World) :
  (forall e st st1 stop,
     epoch_body params root W e st = Ok (st1, stop) ->
     exists sw, epoch_work root W e st = Ok sw /\
                In (ckpt_name e) (ckpt_dir sw) /\
                stop_check params W e sw = (st1, stop) /\
                ckpt_dir st1 = ckpt_dir sw) /\
  (forall x e,
     train_val_pipeline params root W = Ok x ->
     epochs_run x = Datatypes.S e ->
     In (ckpt_name e) (ckpt_dir (final x))).
Proof.
  assert (Hbody : forall e st st1 stop,
     epoch_body params root W e st = Ok (st1, stop) ->
     exists sw, epoch_work root W e st = Ok sw /\
                In (ckpt_name e) (ckpt_dir sw) /\
                stop_check params W e sw = (st1, stop) /\
                ckpt_dir st1 = ckpt_dir sw).
  { intros e st st1 stop Hb. unfold epoch_body in Hb.
    destruct (epoch_work root W e st) as [sw|] eqn:Hw; cbn [bind] in Hb;
      [|discriminate].
    injection Hb as Hb. exists sw. split; [reflexivity|].
    split; [|split; [exact Hb|]].
    - unfold epoch_work in Hw.
      destruct (save_checkpoint _ _ _ _) as [d|] eqn:Hs; cbn [bind] in Hw;
        [|discriminate].
      injection Hw as <-. cbn [ckpt_dir].
      exact (save_keeps_current _ _ _ _ _ Hs).
    - pose proof (stop_check_fields params W e sw) as F.
      rewrite Hb in F. cbn in F. tauto. }
  split; [exact Hbody|].
  intros x e Hp He. unfold train_val_pipeline in Hp.
  destruct (loop _ _ _ _ _ _) as [y|] eqn:Hl; cbn [bind] in Hp;
    [|discriminate].
  injection Hp as <-. cbn in He |- *.
  apply loop_exit in Hl as [(_ & H0 & _)|(e' & stop & He' & Hend & _)];
    [congruence|].
  assert (e' = e) as -> by congruence.
  destruct Hend as (s & _ & Hb).
  apply Hbody in Hb as (sw & _ & Hin & _ & Hd). now rewrite Hd.
Qed.

Lemma C10_checkpoint_saved_before_stop_tests_witness :
  exists x : Exit (S := Plateau),
    train_val_pipeline short_params "run" steady_world = Ok x /\
    epochs_run x = 5%nat /\
    In "epoch_4.pkl"%string (ckpt_dir (final x)).
Proof.
  eexists. split; [vm_compute; reflexivity|]. split; [reflexivity|].
  refine (proj2 (C10_checkpoint_saved_before_stop_tests
            short_params "run" steady_world) _ 4%nat _ _).
  - vm_compute. reflexivity.
  - reflexivity.
Defined.

(** C4 (as the code has it). [os.remove] is called outside any [try]:
    when a deletion of the pruning loop fails, in a directory whose
    [.pkl] names all carry a number, [save_checkpoint] raises the
    [OSError], the loop is left by it and so is the pipeline; the run
    does not go on. *)
Theorem C4_failed_deletion_ends_run
    {S : Type} `{LRScheduler S} (params : Params) (root : string)
    (W : World) (e : nat) (st : State S) (f : string) (k : Z) :
  at_epoch_start params root W e st ->
  Forall (fun g => exists j, epoch_of_file (path_of root g) = Ok j)
    (glob_pkl (write_file (ckpt_name e) (ckpt_dir st))) ->
  In f (glob_pkl (write_file (ckpt_name e) (ckpt_dir st))) ->
  epoch_of_file (path_of root f) = Ok k ->
  (k < Z.of_nat e - 1)%Z ->
  remove_fails W e f = true ->
  exists g,
    save_checkpoint (remove_fails W e) root e (ckpt_dir st)
      = Raise (OSError (path_of root g)) /\
    train_val_pipeline params root W = Raise (OSError (path_of root g)).
Proof.
  intros Hs Hall Hin Hk Hlt Hrm.
  destruct (prune_raises (remove_fails W e) root e _
              (write_file (ckpt_name e) (ckpt_dir st)) f k
              Hall Hin Hk Hlt Hrm) as (g & _ & Hp).
  exists g.
  assert (Hsave : save_checkpoint (remove_fails W e) root e (ckpt_dir st)
                  = Raise (OSError (path_of root g))) by exact Hp.
  split; [exact Hsave|].
  unfold train_val_pipeline.
  rewrite (loop_raise params root W e st (OSError (path_of root g)) Hs);
    [reflexivity|].
  unfold epoch_body, epoch_work. now rewrite Hsave.
Qed.

Lemma C4_failed_deletion_ends_run_witness :
  exists g,
    train_val_pipeline (S := Plateau) short_params "run" locked_world
    = Raise (OSError (path_of "run" g)).
Proof.
  assert (Hs : exists st : State Plateau,
             at_epoch_start short_params "run" locked_world 2 st /\
             ckpt_dir st = ["epoch_0.pkl"; "epoch_1.pkl"]%string).
  { eexists. split; [reach|reflexivity]. }
  destruct Hs as (st & Hs & Hd).
  destruct (C4_failed_deletion_ends_run short_params "run" locked_world
              2 st "epoch_0.pkl" 0%Z Hs) as (g & _ & Hp).
  - rewrite Hd. repeat constructor; eexists; vm_compute; reflexivity.
  - rewrite Hd. vm_compute. auto.
  - vm_compute. reflexivity.
  - lia.
  - reflexivity.
  - exists g. exact Hp.
Defined.

(** C4, the claim as stated fails: with a checkpoint that cannot be
    deleted, the run ends in the third epoch with the [OSError]. *)
Lemma C4_counterexample :
  train_val_pipeline (S := Plateau) short_params "run" locked_world
    = Raise (OSError "run/epoch_0.pkl") /\
  ~ deletion_failure_ignored
      (train_val_pipeline (S := Plateau) short_params "run" locked_world).
Proof.
  assert (E : train_val_pipeline (S := Plateau) short_params "run"
                locked_world = Raise (OSError "run/epoch_0.pkl"))
    by (vm_compute; reflexivity).
  split; [exact E|].
  intros Hign. exact (Hign "run/epoch_0.pkl"%string E).
Qed.

(** ** The scalars written over a run *)

Section RunWriter.

Context {S : Type} `{LRScheduler S}.
Variable params : Params.
Variable root : string.
Variable W : World.

Lemma epoch_scalars_step (e : nat) (i : EpochIn) (rate : Q) :
  Forall (fun x => step x = e) (epoch_scalars e i rate).
Proof. repeat constructor. Qed.

Lemma filter_epoch_scalars (e e' : nat) (i : EpochIn) (rate : Q) :
  filter (fun x => Nat.eqb (step x) e') (epoch_scalars e i rate) =
  if Nat.eqb e e' then epoch_scalars e i rate else [].
Proof.
  unfold epoch_scalars. cbn. now destruct (Nat.eqb e e').
Qed.

(** On entry to epoch [e] every scalar written has a smaller step. *)
Lemma writer_steps_start (e : nat) (st : State S) :
  at_epoch_start params root W e st ->
  Forall (fun x => (step x < e)%nat) (writer st).
Proof.
  induction 1 as [Hpos | e st st1 Hs IH Hb Hlt].
  - constructor.
  - apply epoch_body_inv in Hb as (_ & _ & -> & _).
    apply Forall_app. split.
    + eapply Forall_impl; [|exact IH]. cbn. intros; lia.
    + eapply Forall_impl; [|apply epoch_scalars_step]. cbn. intros; lia.
Qed.

Lemma filter_none_below (e : nat) (w : list Scalar) :
  Forall (fun x => (step x < e)%nat) w ->
  filter (fun x => Nat.eqb (step x) e) w = [].
Proof.
  induction 1 as [|x w Hx _ IH]; cbn; [reflexivity|].
  destruct (Nat.eqb_spec (step x) e); [lia|exact IH].
Qed.

Lemma writer_of_epoch (e : nat) :
  forall (st : State S) (stop : option StopReason)
         (e' : nat) (st' : State S) (stop' : option StopReason),
    at_epoch_end params root W e st stop ->
    at_epoch_end params root W e' st' stop' ->
    (e' <= e)%nat ->
    filter (fun x => Nat.eqb (step x) e') (writer st) =
    epoch_scalars e' (epoch_in W e') (sched_lr (sched st')).
Proof.
  induction e as [|k IH]; intros st stop e' st' stop' Hend Hend' Hle.
  - assert (e' = 0)%nat as -> by lia.
    destruct (at_epoch_end_det _ _ _ _ _ _ _ _ Hend Hend') as [<- _].
    destruct Hend as (s & Hs & Hb).
    pose proof (writer_steps_start _ _ Hs) as Hw.
    apply epoch_body_inv in Hb as (_ & _ & -> & _).
    rewrite filter_app, (filter_none_below _ _ Hw), filter_epoch_scalars.
    reflexivity.
  - destruct (Nat.eq_dec e' (Datatypes.S k)) as [->|Hne].
    + destruct (at_epoch_end_det _ _ _ _ _ _ _ _ Hend Hend') as [<- _].
      destruct Hend as (s & Hs & Hb).
      pose proof (writer_steps_start _ _ Hs) as Hw.
      apply epoch_body_inv in Hb as (_ & _ & -> & _).
      rewrite filter_app, (filter_none_below _ _ Hw), filter_epoch_scalars.
      now rewrite Nat.eqb_refl.
    + destruct Hend as (s & Hs & Hb).
      pose proof (at_epoch_start_prev _ _ _ _ _ Hs) as Hprev.
      apply epoch_body_inv in Hb as (_ & _ & -> & _).
      rewrite filter_app, filter_epoch_scalars.
      destruct (Nat.eqb_spec (Datatypes.S k) e'); [congruence|].
      rewrite app_nil_r.
      apply (IH s None e' st' stop' Hprev Hend'). lia.
Qed.

End RunWriter.

(** C3 (as the code has it). For every epoch a run has completed, the
    writer holds, under that epoch's index, exactly the five scalars
    of [add_scalar]: train loss, validation loss, train accuracy,
    validation accuracy and the learning rate then current, in this
    order.  The test loss and accuracy are in the printed line only. *)
Theorem C3_five_scalars_per_epoch
    {S : Type} `{LRScheduler S} (params : Params) (root : string)
    (W : World) (e : nat) (st : State S) (stop : option StopReason)
    (e' : nat) (st' : State S) (stop' : option StopReason) :
  at_epoch_end params root W e st stop ->
  at_epoch_end params root W e' st' stop' ->
  (e' <= e)%nat ->
  filter (fun x => Nat.eqb (step x) e') (writer st) =
    [ {| tag := "train/_loss"; value := train_loss (epoch_in W e');
         step := e' |};
      {| tag := "val/_loss"; value := val_loss (epoch_in W e');
         step := e' |};
      {| tag := "train/_acc"; value := train_acc (epoch_in W e');
         step := e' |};
      {| tag := "val/_acc"; value := val_acc (epoch_in W e');
         step := e' |};
      {| tag := "learning_rate"; value := sched_lr (sched st');
         step := e' |} ] /\
  (exists secs,
     In (MsgEpoch secs (sched_lr (sched st'))
           (train_loss (epoch_in W e')) (val_loss (epoch_in W e'))
           (test_loss (epoch_in W e')) (train_acc (epoch_in W e'))
           (val_acc (epoch_in W e')) (test_acc (epoch_in W e')))
        (out st')).
Proof.
  intros Hend Hend' Hle. split.
  - exact (writer_of_epoch params root W e st stop e' st' stop'
             Hend Hend' Hle).
  - destruct Hend' as (s & _ & Hb). unfold epoch_body in Hb.
    destruct (epoch_work root W e' s) as [sw|] eqn:Hw; cbn [bind] in Hb;
      [|discriminate].
    injection Hb as Hb.
    assert (Hout : exists o, out st' = (out sw ++ o)%list).
    { unfold stop_check in Hb.
      destruct (Qlt_bool _ _); [|destruct (Qlt_bool _ _)];
        injection Hb as <- _; cbn [print out]; eauto.
      exists []. now rewrite app_nil_r. }
    assert (Hs : sched st' = sched sw).
    { pose proof (stop_check_fields params W e' sw) as F.
      rewrite Hb in F. cbn in F. tauto. }
    destruct Hout as (o & ->). rewrite Hs.
    unfold epoch_work in Hw.
    destruct (save_checkpoint _ _ _ _); cbn [bind] in Hw; [|discriminate].
    injection Hw as <-. cbn [out sched].
    eexists. apply in_or_app. left. apply in_or_app. right.
    right. left. reflexivity.
Qed.

Lemma C3_five_scalars_per_epoch_witness :
  exists (st st' : State Plateau),
    at_epoch_end short_params "run" steady_world 2 st None /\
    at_epoch_end short_params "run" steady_world 1 st' None /\
    filter (fun x => Nat.eqb (step x) 1) (writer st) =
    [ {| tag := "train/_loss"; value := 3 # 10; step := 1 |};
      {| tag := "val/_loss"; value := 1 # 2; step := 1 |};
      {| tag := "train/_acc"; value := 9 # 10; step := 1 |};
      {| tag := "val/_acc"; value := 8 # 10; step := 1 |};
      {| tag := "learning_rate"; value := lr (sched st'); step := 1 |} ].
Proof.
  assert (Hruns : exists st st' : State Plateau,
             at_epoch_end short_params "run" steady_world 2 st None /\
             at_epoch_end short_params "run" steady_world 1 st' None).
  { eexists. eexists. split; reach. }
  destruct Hruns as (st & st' & H2 & H1).
  exists st, st'. split; [exact H2|]. split; [exact H1|].
  exact (proj1 (C3_five_scalars_per_epoch short_params "run" steady_world
                  2 st None 1 st' None H2 H1 (Nat.le_succ_diag_r 1))).
Defined.

(** C3, the claim as stated fails: after the first epoch of the steady
    run the writer holds no test loss under step 0. *)
Lemma C3_counterexample :
  exists st : State Plateau,
    at_epoch_end short_params "run" steady_world 0 st None /\
    ~ records_six_and_rate (writer st) 0 (epoch_in steady_world 0)
        (sched_lr (sched st)).
Proof.
  eexists. split; [reach|].
  intros Hrec. destruct (Hrec (7 # 10)) as (t & Hin).
  - cbn. tauto.
  - cbn in Hin.
    repeat (destruct Hin as [Hin|Hin]; [discriminate Hin|]).
    exact Hin.
Qed.

(** ** The plateau policy *)

Section PlateauPolicy.

Lemma is_better_false (v b : Q) : ~ v < b -> is_better v (Some b) = false.
Proof. intros Hn. now apply Qlt_bool_false. Qed.

(** A non-improving observation below the patience only counts. *)
Lemma plateau_step_count (s : Plateau) (v b : Q) :
  best s = Some b -> ~ v < b ->
  (num_bad_epochs s < patience s)%nat ->
  plateau_step s v =
  {| factor := factor s; patience := patience s; best := best s;
     num_bad_epochs := Datatypes.S (num_bad_epochs s); lr := lr s |}.
Proof.
  intros Hb Hv Hn. unfold plateau_step.
  rewrite Hb, (is_better_false _ _ Hv).
  destruct (Nat.ltb_spec (patience s) (Datatypes.S (num_bad_epochs s)));
    [lia|reflexivity].
Qed.

(** The one that exceeds the patience reduces the rate. *)
Lemma plateau_step_reduce (s : Plateau) (v b : Q) :
  best s = Some b -> ~ v < b ->
  (patience s <= num_bad_epochs s)%nat ->
  plateau_step s v =
  {| factor := factor s; patience := patience s; best := best s;
     num_bad_epochs := 0; lr := lr s * factor s |}.
Proof.
  intros Hb Hv Hn. unfold plateau_step.
  rewrite Hb, (is_better_false _ _ Hv).
  destruct (Nat.ltb_spec (patience s) (Datatypes.S (num_bad_epochs s)));
    [reflexivity|lia].
Qed.

(** A stretch of non-improving observations that stays within the
    patience leaves the rate alone. *)
Lemma plateau_steps_count (b : Q) (vs : list Q) :
  forall s : Plateau,
    best s = Some b ->
    Forall (fun v => ~ v < b) vs ->
    (num_bad_epochs s + List.length vs <= patience s)%nat ->
    fold_left plateau_step vs s =
    {| factor := factor s; patience := patience s; best := best s;
       num_bad_epochs := num_bad_epochs s + List.length vs; lr := lr s |}.
Proof.
  induction vs as [|v vs IH]; intros s Hb Hall Hn; cbn [fold_left List.length].
  - rewrite Nat.add_0_r. now destruct s.
  - inversion Hall as [|? ? Hv Hvs]; subst. cbn [List.length] in Hn.
    rewrite (plateau_step_count s v b Hb Hv) by lia.
    rewrite IH; cbn; auto; [|lia].
    f_equal. lia.
Qed.

Lemma plateau_step_factor (s : Plateau) (v : Q) :
  factor (plateau_step s v) = factor s /\
  patience (plateau_step s v) = patience s.
Proof.
  unfold plateau_step.
  destruct (is_better _ _); [|destruct (_ <? _)%nat]; split; reflexivity.
Qed.

(** With a factor between 0 and 1 a step never raises a rate that is
    not negative. *)
Lemma plateau_step_le (s : Plateau) (v : Q) :
  0 <= lr s -> 0 <= factor s <= 1 ->
  0 <= lr (plateau_step s v) /\ lr (plateau_step s v) <= lr s.
Proof.
  intros Hlr [Hf0 Hf1]. unfold plateau_step.
  destruct (is_better _ _); [|destruct (_ <? _)%nat]; cbn [lr];
    try (split; [exact Hlr|apply Qle_refl]).
  split.
  - now apply Qmult_le_0_compat.
  - rewrite <- (Qmult_1_r (lr s)) at 2.
    rewrite (Qmult_comm (lr s) (factor s)), (Qmult_comm (lr s) 1).
    now apply Qmult_le_compat_r.
Qed.

End PlateauPolicy.

(** C5. The plateau policy.  (a) From a counter at 0, a stretch of
    [patience + 1] observations none of which is strictly below the
    best loss: the rate is untouched, and the counter counts, through
    the first [patience] of them; after the last the rate is the old
    one times the factor and the counter is 0.  (b) An observation
    strictly below the best loss (any observation while the best is
    still +infinity) resets the counter to 0, becomes the best and
    leaves the rate.  (c) An observation equal to the best loss is not
    an improvement: the best stays, and the counter grows or, past the
    patience, the rate is reduced. *)
Theorem C5_plateau_policy (s : Plateau) :
  (forall (b : Q) (vs : list Q),
     best s = Some b ->
     num_bad_epochs s = 0%nat ->
     List.length vs = Datatypes.S (patience s) ->
     Forall (fun v => ~ v < b) vs ->
     (forall n, (n <= patience s)%nat ->
        lr (fold_left plateau_step (firstn n vs) s) = lr s /\
        num_bad_epochs (fold_left plateau_step (firstn n vs) s) = n) /\
     lr (fold_left plateau_step vs s) = lr s * factor s /\
     num_bad_epochs (fold_left plateau_step vs s) = 0%nat) /\
  (forall v : Q,
     (best s = None \/ exists b, best s = Some b /\ v < b) ->
     num_bad_epochs (plateau_step s v) = 0%nat /\
     best (plateau_step s v) = Some v /\
     lr (plateau_step s v) = lr s) /\
  (forall b v : Q,
     best s = Some b ->
     v == b ->
     best (plateau_step s v) = Some b /\
     ((num_bad_epochs s < patience s)%nat ->
      num_bad_epochs (plateau_step s v) = Datatypes.S (num_bad_epochs s) /\
      lr (plateau_step s v) = lr s) /\
     ((patience s <= num_bad_epochs s)%nat ->
      num_bad_epochs (plateau_step s v) = 0%nat /\
      lr (plateau_step s v) = lr s * factor s)).
Proof.
  split; [|split].
  - intros b vs Hb H0 Hlen Hall.
    assert (Hpre : forall n, (n <= patience s)%nat ->
              fold_left plateau_step (firstn n vs) s =
              {| factor := factor s; patience := patience s; best := best s;
                 num_bad_epochs := n; lr := lr s |}).
    { intros n Hn.
      rewrite (plateau_steps_count b (firstn n vs) s Hb).
      - rewrite H0, length_firstn, Hlen. f_equal. lia.
      - apply Forall_forall. intros v Hv.
        rewrite Forall_forall in Hall. apply Hall.
        rewrite <- (firstn_skipn n vs). apply in_or_app. now left.
      - rewrite H0, length_firstn, Hlen. lia. }
    split.
    + intros n Hn. rewrite (Hpre n Hn). split; reflexivity.
    + rewrite <- (firstn_skipn (patience s) vs), fold_left_app.
      rewrite (Hpre _ (Nat.le_refl _)).
      destruct (skipn (patience s) vs) as [|v [|w rest]] eqn:Esk.
      * pose proof (length_skipn (patience s) vs) as L.
        rewrite Esk, Hlen in L. cbn [List.length] in L. lia.
      * assert (Hv : ~ v < b).
        { rewrite Forall_forall in Hall. apply Hall.
          rewrite <- (firstn_skipn (patience s) vs), Esk.
          apply in_or_app. right. now left. }
        cbn [fold_left].
        rewrite (plateau_step_reduce _ v b); cbn; auto.
      * pose proof (length_skipn (patience s) vs) as L.
        rewrite Esk, Hlen in L. cbn [List.length] in L. lia.
  - intros v Hv. unfold plateau_step.
    assert (Hbetter : is_better v (best s) = true).
    { destruct Hv as [-> | (b & -> & Hlt)]; [reflexivity|].
      now apply Qlt_bool_iff. }
    rewrite Hbetter. repeat split.
  - intros b v Hb Hv.
    assert (Hn : ~ v < b).
    { rewrite Hv. apply Qlt_irrefl. }
    split; [|split].
    + unfold plateau_step. rewrite Hb, (is_better_false _ _ Hn).
      destruct (_ <? _)%nat; reflexivity.
    + intros Hlt. rewrite (plateau_step_count s v b Hb Hn Hlt).
      split; reflexivity.
    + intros Hge. rewrite (plateau_step_reduce s v b Hb Hn Hge).
      split; reflexivity.
Qed.

Lemma C5_plateau_policy_witness :
  lr (fold_left plateau_step [1 # 2; 3 # 4] waiting_plateau)
    = (1 # 1000) * (1 # 2) /\
  num_bad_epochs (fold_left plateau_step [1 # 2; 3 # 4] waiting_plateau)
    = 0%nat.
Proof.
  refine (proj2 (proj1 (C5_plateau_policy waiting_plateau)
                   (1 # 2) [1 # 2; 3 # 4] _ _ _ _)).
  - reflexivity.
  - reflexivity.
  - reflexivity.
  - repeat constructor; vm_compute; discriminate.
Defined.

(** ** The learning rate over a run *)

Section RunRate.

Variable params : Params.
Variable root : string.
Variable W : World.
Hypothesis rate_nonneg : 0 <= init_lr params.
Hypothesis factor_range : 0 <= lr_reduce_factor params <= 1.

Lemma plateau_run_start (e : nat) (st : State Plateau) :
  at_epoch_start params root W e st ->
  factor (sched st) = lr_reduce_factor params /\ 0 <= lr (sched st).
Proof.
  induction 1 as [Hpos | e st st1 Hs [IHf IHl] Hb Hlt].
  - split; [reflexivity|exact rate_nonneg].
  - apply epoch_body_inv in Hb as (_ & Hsched & _).
    cbn [sched_step plateau_scheduler] in Hsched. rewrite Hsched.
    split.
    + now rewrite (proj1 (plateau_step_factor _ _)).
    + apply plateau_step_le; [exact IHl|now rewrite IHf].
Qed.

Lemma plateau_run_step (e : nat) (s st : State Plateau)
    (stop : option StopReason) :
  at_epoch_start params root W e s ->
  epoch_body params root W e s = Ok (st, stop) ->
  lr (sched st) <= lr (sched s).
Proof.
  intros Hs Hb. destruct (plateau_run_start _ _ Hs) as [Hf Hl].
  apply epoch_body_inv in Hb as (_ & Hsched & _).
  cbn [sched_step plateau_scheduler] in Hsched. rewrite Hsched.
  apply plateau_step_le; [exact Hl|now rewrite Hf].
Qed.

End RunRate.

(** C6. In a run whose initial learning rate is not negative and whose
    reduce factor lies between 0 and 1, the learning rate at the end of
    epoch [e + 1] is at most the learning rate at the end of epoch
    [e]. *)
Theorem C6_learning_rate_non_increasing
    (params : Params) (root : string) (W : World) (e : nat)
    (st st' : State Plateau) (stop stop' : option StopReason) :
  0 <= init_lr params ->
  0 <= lr_reduce_factor params <= 1 ->
  at_epoch_end params root W e st stop ->
  at_epoch_end params root W (Datatypes.S e) st' stop' ->
  sched_lr (sched st') <= sched_lr (sched st).
Proof.
  intros Hlr Hf Hend (s & Hs & Hb).
  pose proof (at_epoch_start_prev _ _ _ _ _ Hs) as Hprev.
  destruct (at_epoch_end_det _ _ _ _ _ _ _ _ Hend Hprev) as [-> _].
  exact (plateau_run_step params root W Hlr Hf _ _ _ _ Hs Hb).
Qed.

Lemma C6_learning_rate_non_increasing_witness :
  exists st st' : State Plateau,
    at_epoch_end (floor_params 5 0 48) "run" steady_world 0 st None /\
    at_epoch_end (floor_params 5 0 48) "run" steady_world 1 st' None /\
    lr (sched st') <= lr (sched st).
Proof.
  assert (Hruns : exists st st' : State Plateau,
             at_epoch_end (floor_params 5 0 48) "run" steady_world 0 st None /\
             at_epoch_end (floor_params 5 0 48) "run" steady_world 1 st' None).
  { eexists. eexists. split; reach. }
  destruct Hruns as (st & st' & H0 & H1).
  exists st, st'. split; [exact H0|]. split; [exact H1|].
  refine (C6_learning_rate_non_increasing (floor_params 5 0 48) "run"
            steady_world 0 st st' None None _ _ H0 H1).
  - vm_compute. discriminate.
  - split; vm_compute; discriminate.
Defined.

(** C7. With [max_time] equal to 0 and at least one epoch to run: if
    the first epoch completes, the rate it leaves is not below
    [min_lr] and the clock has moved on since [t0], then the pipeline
    runs that one epoch and leaves the loop through the second
    [break], with the time-budget line printed. *)
Theorem C7_zero_budget_stops_after_one_epoch
    {S : Type} `{LRScheduler S} (params : Params) (root : string)
    (W : World) (sw : State S) :
  max_time params == 0 ->
  (1 <= epochs params)%nat ->
  epoch_work root W 0 (init_state params W) = Ok sw ->
  ~ sched_lr (sched sw) < min_lr params ->
  t0 W < t_check (epoch_in W 0) ->
  exists x,
    train_val_pipeline params root W = Ok x /\
    reason x = STOPPED_TIMEOUT /\
    epochs_run x = 1%nat /\
    List.length (epoch_train_losses (final x)) = 1%nat /\
    In (MsgMaxTime (max_time params)) (out (final x)).
Proof.
  intros Hmax Hn Hw Hlr Hclock.
  assert (Hb : epoch_body params root W 0 (init_state params W) =
               Ok (print (MsgMaxTime (max_time params)) sw,
                   Some STOPPED_TIMEOUT)).
  { unfold epoch_body. rewrite Hw. cbn [bind]. unfold stop_check.
    apply Qlt_bool_false in Hlr. rewrite Hlr.
    assert (Ht : Qlt_bool (max_time params * 3600)
                   (t_check (epoch_in W 0) - t0 W) = true).
    { apply Qlt_bool_iff. rewrite Hmax, Qmult_0_l.
      unfold Qminus. now apply (proj1 (Qlt_minus_iff _ _)). }
    now rewrite Ht. }
  unfold train_val_pipeline.
  destruct (epochs params) as [|n]; [lia|].
  cbn [loop]. rewrite Hb. cbn [bind]. eexists. split; [reflexivity|].
  cbn. repeat split.
  - unfold epoch_work in Hw.
    destruct (save_checkpoint _ _ _ _); cbn [bind] in Hw; [|discriminate].
    injection Hw as <-. reflexivity.
  - rewrite !in_app_iff. cbn. tauto.
Qed.

Lemma C7_zero_budget_stops_after_one_epoch_witness :
  exists x : Exit (S := Plateau),
    train_val_pipeline (floor_params 5 5 0) "run" steady_world = Ok x /\
    reason x = STOPPED_TIMEOUT /\ epochs_run x = 1%nat.
Proof.
  assert (Hw : exists sw : State Plateau,
             epoch_work "run" steady_world 0
               (init_state (floor_params 5 5 0) steady_world) = Ok sw /\
             lr (sched sw) = 1 # 1000).
  { eexists. split; [vm_compute; reflexivity|reflexivity]. }
  destruct Hw as (sw & Hw & Hrate).
  destruct (C7_zero_budget_stops_after_one_epoch
              (floor_params 5 5 0) "run" steady_world sw)
    as (x & Hx & Hr & He & _).
  - reflexivity.
  - cbn. lia.
  - exact Hw.
  - cbn [sched_lr plateau_scheduler]. rewrite Hrate.
    vm_compute. discriminate.
  - vm_compute. reflexivity.
  - exists x. auto.
Defined.

(** ** Test metrics and the decisions of a run *)

Section TestMetrics.

Context {S : Type} `{LRScheduler S}.
Variable params : Params.
Variable root : string.
Variable W : World.
Variables tl ta : nat -> Q.
Variable tf : Q.

Let W' : World := with_test W tl ta tf.

Lemma quiet_print (m : Msg) (st : State S) : quiet (print m st) = quiet st.
Proof. reflexivity. Qed.

Lemma quiet_eq (st st' : State S) :
  quiet st = quiet st' ->
  sched st = sched st' /\ ckpt_dir st = ckpt_dir st' /\
  writer st = writer st' /\
  epoch_train_losses st = epoch_train_losses st' /\
  epoch_val_losses st = epoch_val_losses st' /\
  epoch_train_accs st = epoch_train_accs st' /\
  epoch_val_accs st = epoch_val_accs st' /\
  per_epoch_time st = per_epoch_time st'.
Proof.
  destruct st, st'. unfold quiet. cbn. intros [=]. subst. repeat split.
Qed.

(** The work of an epoch reads the test metrics for the printed line
    only. *)
Lemma epoch_work_test (e : nat) (st st' : State S) :
  quiet st = quiet st' ->
  match epoch_work root W e st, epoch_work root W' e st' with
  | Ok a, Ok b => quiet a = quiet b
  | Raise x, Raise y => x = y
  | _, _ => False
  end.
Proof.
  intros Hq. apply quiet_eq in Hq as (E1 & E2 & E3 & E4 & E5 & E6 & E7 & E8).
  unfold epoch_work. cbn [W' with_test remove_fails epoch_in val_loss
    train_loss train_acc val_acc t_start t_end].
  rewrite E2.
  destruct (save_checkpoint _ _ _ _) as [d|x]; cbn [bind]; [|reflexivity].
  unfold quiet. cbn. now rewrite E1, E3, E4, E5, E6, E7, E8.
Qed.

Lemma stop_check_test (e : nat) (st st' : State S) :
  quiet st = quiet st' ->
  quiet (fst (stop_check params W e st)) =
    quiet (fst (stop_check params W' e st')) /\
  snd (stop_check params W e st) = snd (stop_check params W' e st').
Proof.
  intros Hq. pose proof (quiet_eq _ _ Hq) as (E1 & _).
  unfold stop_check. cbn [W' with_test t0 epoch_in t_check]. rewrite E1.
  destruct (Qlt_bool _ _); [|destruct (Qlt_bool _ _)]; cbn [fst snd];
    rewrite ?quiet_print; auto.
Qed.

Lemma loop_test (n : nat) :
  forall (e : nat) (st st' : State S),
    quiet st = quiet st' ->
    decisions (loop params root W n e st) =
    decisions (loop params root W' n e st').
Proof.
  induction n as [|n IH]; intros e st st' Hq; cbn [loop].
  - cbn. now rewrite Hq.
  - unfold epoch_body.
    pose proof (epoch_work_test e st st' Hq) as Hw.
    destruct (epoch_work root W e st) as [a|x],
             (epoch_work root W' e st') as [b|y];
      cbn [bind]; try contradiction; [|now subst].
    destruct (stop_check_test e a b Hw) as [Hs Hr].
    destruct (stop_check params W e a) as [a1 r1],
             (stop_check params W' e b) as [b1 r2].
    cbn [fst snd] in Hs, Hr. subst r2.
    destruct r1 as [why|]; [cbn; now rewrite Hs|].
    now apply IH.
Qed.

End TestMetrics.

(** C9. Replace the test loss and accuracy of every epoch, and the
    final test accuracy, by any other values: the run raises the same
    exception or leaves the loop after the same number of epochs for
    the same reason, with the same scheduler state, checkpoint
    directory, scalars written (validation losses and learning rates
    of every epoch among them) and histories.  Only printed lines can
    differ. *)
Theorem C9_test_metrics_do_not_steer
    {S : Type} `{LRScheduler S} (params : Params) (root : string)
    (W : World) (tl ta : nat -> Q) (tf : Q) :
  decisions (train_val_pipeline params root (with_test W tl ta tf)) =
  decisions (train_val_pipeline params root W).
Proof.
  unfold train_val_pipeline.
  pose proof (loop_test params root W tl ta tf (epochs params) 0
                (init_state params W)
                (init_state params (with_test W tl ta tf)) eq_refl) as Hl.
  destruct (loop params root W (epochs params) 0 (init_state params W))
    as [x|ex],
    (loop params root (with_test W tl ta tf) (epochs params) 0
       (init_state params (with_test W tl ta tf))) as [y|ey];
    cbn [bind decisions] in *; try discriminate.
  - unfold finish. cbn. unfold quiet in Hl. injection Hl. intros.
    rewrite !quiet_print. unfold quiet. congruence.
  - now injection Hl as ->.
Qed.

(** ** Reaching the learning-rate floor *)

Section FloorRun.

Variables n p : nat.
Variable hours : Q.
Variable root : string.
Variable W : World.

Let params : Params := floor_params n p hours.
Let v0 : Q := val_loss (epoch_in W 0).

Hypothesis fresh : dir0 W = [].
Hypothesis removable : forall e f, remove_fails W e f = false.
Hypothesis flat :
  forall e, (Datatypes.S e <= 7 * (p + 1))%nat ->
            ~ val_loss (epoch_in W (Datatypes.S e)) < v0.
Hypothesis in_time :
  forall e, (e <= 7 * (p + 1))%nat ->
            ~ hours * 3600 < t_check (epoch_in W e) - t0 W.
Hypothesis long_enough : (7 * (p + 1) < n)%nat.

(** The scheduler after [k] reductions and [j] further bad epochs. *)
Let sched_at (k j : nat) : Plateau :=
  {| factor := 1 # 2; patience := p; best := Some v0;
     num_bad_epochs := j; lr := halved k |}.

Lemma halved_floor (k : nat) :
  (k <= 7)%nat ->
  Qlt_bool (halved k) (1 # 100000) = negb (k <? 7)%nat.
Proof.
  intros Hk.
  do 8 (destruct k as [|k]; [vm_compute; reflexivity|]). lia.
Qed.

Lemma floor_save (e : nat) (s : State Plateau) :
  at_epoch_start params root W e s ->
  save_checkpoint (remove_fails W e) root e (ckpt_dir s) = Ok (retained e).
Proof.
  intros Hs. rewrite (run_dir_start params root W fresh e s Hs).
  destruct e as [|[|k]].
  - apply save_first.
  - apply save_second.
  - rewrite save_later, removable. reflexivity.
Qed.

(** An iteration whose save succeeds, with the stop it takes. *)
Lemma floor_body (e : nat) (s : State Plateau) :
  at_epoch_start params root W e s ->
  (e <= 7 * (p + 1))%nat ->
  exists st,
    epoch_body params root W e s =
      Ok (st, if Qlt_bool (lr (plateau_step (sched s)
                                 (val_loss (epoch_in W e))))
                          (1 # 100000)
              then Some STOPPED_CONVERGED else None) /\
    sched st = plateau_step (sched s) (val_loss (epoch_in W e)).
Proof.
  intros Hs He. unfold epoch_body, epoch_work.
  rewrite (floor_save e s Hs). cbn [bind].
  match goal with
  | |- context [stop_check params W e ?sw] =>
      pose proof (stop_check_fields params W e sw) as F;
      pose proof (stop_check_reason params W e sw) as R;
      destruct (stop_check params W e sw) as [st stop]
  end.
  cbn [fst snd sched] in F, R. destruct F as (F & _).
  exists st. split; [|exact F].
  rewrite R. cbn [sched_lr sched_step plateau_scheduler params
                  floor_params min_lr max_time].
  rewrite (proj2 (Qlt_bool_false _ _) (in_time e He)).
  reflexivity.
Qed.

(** Epoch [k * (p + 1) + j] ends after [k] reductions with [j] bad
    epochs counted, and the loop goes on as long as [k < 7]. *)
Lemma floor_trajectory (m : nat) :
  (m <= 7 * (p + 1))%nat ->
  exists st k j,
    m = (k * (p + 1) + j)%nat /\ (j <= p)%nat /\
    at_epoch_end params root W m st
      (if (k <? 7)%nat then None else Some STOPPED_CONVERGED) /\
    sched st = sched_at k j.
Proof.
  induction m as [|m IH]; intros Hm.
  - assert (Hs : at_epoch_start params root W 0 (init_state params W))
      by (constructor; cbn; lia).
    destruct (floor_body 0 _ Hs Hm) as (st & Hb & Hsched).
    exists st, 0%nat, 0%nat. repeat split; try lia.
    + exists (init_state params W). split; [exact Hs|exact Hb].
    + exact Hsched.
  - destruct IH as (s & k & j & Hkj & Hj & Hend & Hsched); [lia|].
    assert (Hk : (k < 7)%nat).
    { destruct (Nat.lt_ge_cases k 7) as [Hlt|Hge]; [exact Hlt|].
      assert (7 * (p + 1) <= k * (p + 1))%nat
        by (apply Nat.mul_le_mono_r; lia). lia. }
    destruct (Nat.ltb_spec k 7) as [_|]; [|lia].
    assert (Hs : at_epoch_start params root W (Datatypes.S m) s).
    { destruct Hend as (s0 & Hs0 & Hb0).
      econstructor; eauto. cbn. lia. }
    destruct (floor_body _ _ Hs Hm) as (st & Hb & Hst).
    assert (Hflat : ~ val_loss (epoch_in W (Datatypes.S m)) < v0)
      by (apply flat; lia).
    rewrite Hsched in Hb, Hst.
    destruct (Nat.lt_ge_cases j p) as [Hlt|Hge].
    + rewrite (plateau_step_count (sched_at k j) _ v0 eq_refl Hflat Hlt) in Hb, Hst.
      cbn [lr sched_at factor patience best num_bad_epochs] in Hb, Hst.
      exists st, k, (Datatypes.S j). repeat split; try lia.
      * exists s. split; [exact Hs|].
        rewrite Hb, halved_floor by lia.
        destruct (Nat.ltb_spec k 7); [reflexivity|lia].
      * exact Hst.
    + rewrite (plateau_step_reduce (sched_at k j) _ v0 eq_refl Hflat Hge) in Hb, Hst.
      cbn [lr sched_at factor patience best num_bad_epochs] in Hb, Hst.
      exists st, (Datatypes.S k), 0%nat. repeat split; try lia.
      * exists s. split; [exact Hs|].
        rewrite Hb.
        change (halved k * (1 # 2)) with (halved (Datatypes.S k)).
        rewrite halved_floor by lia.
        destruct (Nat.ltb_spec (Datatypes.S k) 7); reflexivity.
      * exact Hst.
Qed.

Lemma floor_exit :
  exists st,
    at_epoch_end params root W (7 * (p + 1)) st (Some STOPPED_CONVERGED) /\
    lr (sched st) = halved 7.
Proof.
  destruct (floor_trajectory (7 * (p + 1)) (Nat.le_refl _))
    as (st & k & j & Hkj & Hj & Hend & Hsched).
  assert (k = 7)%nat as ->.
  { destruct (Nat.lt_trichotomy k 7) as [Hlt|[Heq|Hgt]]; [|exact Heq|].
    - assert (k * (p + 1) <= 6 * (p + 1))%nat
        by (apply Nat.mul_le_mono_r; lia). lia.
    - assert (8 * (p + 1) <= k * (p + 1))%nat
        by (apply Nat.mul_le_mono_r; lia). lia. }
  assert (j = 0)%nat as -> by lia.
  exists st. split; [exact Hend|]. now rewrite Hsched.
Qed.

End FloorRun.




(** * Further properties of the file *)

(** ** Names and numbers *)

Section MoreNames.

Local Open Scope string_scope.

Lemma rstrip_digits (s : string) : all_digits s = true -> rstrip s = s.
Proof.
  induction s as [|a s IH]; [reflexivity|]. simpl.
  intros Hs. apply andb_prop in Hs as [Ha Hs]. rewrite (IH Hs).
  rewrite (digit_not_space a Ha). now destruct s.
Qed.

(** The printed form of an integer: digits, after a minus sign when it
    is negative. *)
Lemma str_of_int_shape (z : Z) :
  exists u, u <> Decimal.Nil /\ all_digits (NilEmpty.string_of_uint u) = true /\
    ((str_of_int z = NilEmpty.string_of_uint u /\
      Z.to_int z = Decimal.Pos u) \/
     (str_of_int z = String "-" (NilEmpty.string_of_uint u) /\
      Z.to_int z = Decimal.Neg u)).
Proof.
  unfold str_of_int. destruct z as [|p|p]; cbn [Z.to_int].
  - exists (Decimal.D0 Decimal.Nil). split; [discriminate|].
    split; [reflexivity|]. left. split; reflexivity.
  - exists (Pos.to_uint p). split; [apply Unsigned.to_uint_nonnil|].
    split; [apply uint_all_digits|]. left. split; [|reflexivity].
    cbn. unfold NilZero.string_of_uint.
    destruct (Pos.to_uint p) eqn:Ep; try reflexivity.
    now apply Unsigned.to_uint_nonnil in Ep.
  - exists (Pos.to_uint p). split; [apply Unsigned.to_uint_nonnil|].
    split; [apply uint_all_digits|]. right. split; [|reflexivity].
    cbn. unfold NilZero.string_of_uint.
    destruct (Pos.to_uint p) eqn:Ep; try reflexivity.
    now apply Unsigned.to_uint_nonnil in Ep.
Qed.

Lemma str_of_int_no_sep (c : ascii) (z : Z) :
  c = "_"%char \/ c = "."%char -> has_char c (str_of_int z) = false.
Proof.
  intros Hc.
  assert (Hd : is_digit c = false) by (destruct Hc as [-> | ->]; reflexivity).
  assert (Hm : Ascii.eqb "-" c = false)
    by (destruct Hc as [-> | ->]; reflexivity).
  destruct (str_of_int_shape z) as (u & _ & Hu & [[-> _] | [-> _]]).
  - now apply all_digits_no_char.
  - cbn [has_char]. rewrite Hm. now apply all_digits_no_char.
Qed.

(** What [str_of_int] prints, [int_of_str] reads back. *)
Lemma int_of_str_printed (z : Z) : int_of_str (str_of_int z) = Ok z.
Proof.
  destruct (str_of_int_shape z) as (u & Hnil & Hu & [[Hs Hi] | [Hs Hi]]).
  - unfold int_of_str. rewrite Hs, all_digits_strip by exact Hu.
    assert (Hparse :
      match NilEmpty.string_of_uint u with
      | String "+" s' => option_map Decimal.Pos (NilZero.uint_of_string s')
      | s' => NilZero.int_of_string s'
      end = NilZero.int_of_string (NilEmpty.string_of_uint u)).
    { destruct u; reflexivity. }
    rewrite Hparse, <- Hs. unfold str_of_int. rewrite NilZero.isi.
    + now rewrite DecimalZ.of_to.
    + rewrite Hi. intros [= ->]. now apply Hnil.
    + rewrite Hi. discriminate.
  - unfold int_of_str. rewrite Hs.
    assert (Hstrip : rstrip (lstrip (String "-" (NilEmpty.string_of_uint u)))
                     = String "-" (NilEmpty.string_of_uint u)).
    { cbn [lstrip]. change (is_space "-") with false. cbn [rstrip].
      rewrite (rstrip_digits _ Hu).
      destruct (NilEmpty.string_of_uint u); reflexivity. }
    rewrite Hstrip.
    change (match String "-" (NilEmpty.string_of_uint u) with
            | String "+" s' =>
                option_map Decimal.Pos (NilZero.uint_of_string s')
            | s' => NilZero.int_of_string s'
            end)
      with (NilZero.int_of_string (String "-" (NilEmpty.string_of_uint u))).
    rewrite <- Hs. unfold str_of_int. rewrite NilZero.isi.
    + now rewrite DecimalZ.of_to.
    + rewrite Hi. discriminate.
    + rewrite Hi. intros [= ->]. now apply Hnil.
Qed.

(** X5. Printing an integer and reading it back with [int] gives the
    integer, negative ones included. *)
Theorem int_of_str_of_int (z : Z) : int_of_str (str_of_int z) = Ok z.
Proof.
  exact (int_of_str_printed z).
Qed.

Lemma has_char_cut (c : ascii) (s : string) :
  has_char c s = true -> exists a b, s = a ++ String c b.
Proof.
  induction s as [|x s IH]; simpl; [discriminate|].
  destruct (Ascii.eqb_spec x c) as [->|Hne]; simpl.
  - intros _. now exists "", s.
  - intros Hs. destruct (IH Hs) as (a & b & ->).
    now exists (String x a), b.
Qed.

(** X6. When the entry name holds an underscore, the number read from the
    path does not depend on the directory. *)
Theorem epoch_of_file_any_root (root name : string) :
  has_char "_" name = true ->
  epoch_of_file (path_of root name) = epoch_of_file name.
Proof.
  intros Hc. destruct (has_char_cut _ _ Hc) as (a & b & ->).
  unfold epoch_of_file, path_of.
  replace (root ++ "/" ++ a ++ String "_" b)
    with ((root ++ "/" ++ a) ++ String "_" b).
  2:{ now rewrite !app_assoc_str. }
  now rewrite !split_last_app.
Qed.

Lemma epoch_of_file_any_root_witness :
  epoch_of_file (path_of "out_v1.2/run" "epoch_7.pkl")
  = epoch_of_file "epoch_7.pkl".
Proof.
  apply (epoch_of_file_any_root "out_v1.2/run" "epoch_7.pkl").
  reflexivity.
Defined.

(** The number printed after the last underscore is the one read. *)
Lemma epoch_of_printed_field (root pre rest : string) (z : Z) :
  has_char "_" rest = false ->
  epoch_of_file (path_of root (pre ++ "_" ++ str_of_int z ++ "." ++ rest))
  = Ok z.
Proof.
  intros Hrest. unfold epoch_of_file, path_of.
  replace (root ++ "/" ++ pre ++ "_" ++ str_of_int z ++ "." ++ rest)
    with ((root ++ "/" ++ pre) ++ String "_" (str_of_int z ++ "." ++ rest)).
  2:{ now rewrite !app_assoc_str. }
  rewrite split_last_app. rewrite (split_none "_").
  2:{ rewrite has_char_app, str_of_int_no_sep by auto.
      cbn [orb append has_char]. exact Hrest. }
  cbn [last].
  change (str_of_int z ++ "." ++ rest)
    with (str_of_int z ++ String "." rest).
  rewrite split_hd_app by (apply str_of_int_no_sep; auto).
  apply int_of_str_printed.
Qed.

(** X7. The number of a file is what stands between its last underscore
    and the first dot after it: the directory, whatever precedes that
    underscore and whatever follows that dot are not looked at. *)
Theorem epoch_of_file_reads_field (root pre rest : string) (z : Z) :
  has_char "_" rest = false ->
  epoch_of_file (path_of root (pre ++ "_" ++ str_of_int z ++ "." ++ rest))
  = Ok z.
Proof.
  exact (epoch_of_printed_field root pre rest z).
Qed.

Lemma epoch_of_file_reads_field_witness :
  epoch_of_file (path_of "out" ("best_model" ++ "_" ++ str_of_int 3 ++ "."
                                 ++ "v2.pkl")) = Ok 3%Z.
Proof.
  apply (epoch_of_file_reads_field "out" "best_model" "v2.pkl" 3).
  reflexivity.
Defined.

End MoreNames.

(** ** [save_checkpoint] on any directory *)

Section MoreCheckpoints.

Variable rm_fails : string -> bool.
Variable root : string.
Variable epoch : nat.

(** The test of the loop body on an entry of the listing. *)
Let below (f : string) : bool :=
  match epoch_of_file (path_of root f) with
  | Ok k => (k <? Z.of_nat epoch - 1)%Z
  | Raise _ => false
  end.

Lemma filter_filter {A : Type} (f g : A -> bool) (l : list A) :
  filter g (filter f l) = filter (fun x => f x && g x) l.
Proof.
  induction l as [|x l IH]; cbn; [reflexivity|].
  destruct (f x); cbn; [destruct (g x)|]; now rewrite IH.
Qed.

(** A completed pruning loop has deleted the listed entries that pass
    its test, and nothing else. *)
Lemma prune_result (files : list string) :
  forall d d',
    prune rm_fails root epoch files d = Ok d' ->
    d' = filter (fun x =>
                   negb (existsb (fun f => String.eqb f x && below f) files))
           d.
Proof.
  induction files as [|f rest IH]; cbn [prune existsb]; intros d d' Hp.
  - injection Hp as <-. symmetry. apply forallb_filter_id.
    apply forallb_forall. reflexivity.
  - unfold below at 1. 
    destruct (epoch_of_file (path_of root f)) as [k|] eqn:Ef;
      cbn [bind] in Hp; [|discriminate].
    destruct (k <? Z.of_nat epoch - 1)%Z eqn:Ek.
    + destruct (rm_fails f || negb (existsb (String.eqb f) d));
        [discriminate|].
      rewrite (IH _ _ Hp). unfold remove_file. rewrite filter_filter.
      apply filter_ext. intros x. rewrite andb_true_r, negb_orb.
      now rewrite (String.eqb_sym x f).
    + rewrite (IH _ _ Hp). apply filter_ext. intros x.
      now rewrite andb_false_r.
Qed.

(** A pruning loop that completes has read a number off every entry
    of its listing. *)
Lemma prune_ok_parses (files : list string) :
  forall d d',
    prune rm_fails root epoch files d = Ok d' ->
    Forall (fun f => exists k, epoch_of_file (path_of root f) = Ok k) files.
Proof.
  induction files as [|f rest IH]; cbn [prune]; intros d d' Hp;
    [constructor|].
  destruct (epoch_of_file (path_of root f)) as [k|] eqn:Ef;
    cbn [bind] in Hp; [|discriminate].
  constructor; [now exists k|].
  destruct (k <? Z.of_nat epoch - 1)%Z.
  - destruct (rm_fails f || negb (existsb (String.eqb f) d));
      [discriminate|]. eauto.
  - eauto.
Qed.

(** With nothing to delete the loop leaves the directory alone,
    whether deletions would fail or not. *)
Lemma prune_nothing (files : list string) (d : Dir) :
  Forall (fun f => exists k, epoch_of_file (path_of root f) = Ok k /\
                             ~ (k < Z.of_nat epoch - 1)%Z) files ->
  prune rm_fails root epoch files d = Ok d.
Proof.
  induction 1 as [|f rest (k & Ef & Hk) _ IH]; cbn [prune]; [reflexivity|].
  rewrite Ef. cbn [bind].
  destruct (Z.ltb_spec k (Z.of_nat epoch - 1)); [contradiction|exact IH].
Qed.

(** The loop completes when every listed name carries a number, no
    deletion fails and the listing is a duplicate-free part of the
    directory. *)
Lemma prune_completes (files : list string) :
  forall d,
    (forall f, rm_fails f = false) ->
    Forall (fun f => exists k, epoch_of_file (path_of root f) = Ok k) files ->
    NoDup files -> incl files d ->
    exists d', prune rm_fails root epoch files d = Ok d'.
Proof.
  induction files as [|f rest IH]; cbn [prune]; intros d Hrm Hall Hnd Hin.
  - eauto.
  - inversion Hall as [|? ? [k Ef] Hrest]; subst.
    inversion Hnd as [|? ? Hf Hnd']; subst.
    rewrite Ef. cbn [bind]. destruct (k <? Z.of_nat epoch - 1)%Z.
    + rewrite Hrm. cbn [orb].
      assert (Hd : existsb (String.eqb f) d = true).
      { apply existsb_exists. exists f. split; [|apply String.eqb_refl].
        apply Hin. now left. }
      rewrite Hd. cbn [negb]. apply IH; auto.
      intros x Hx. apply remove_file_In. split.
      * apply Hin. now right.
      * intros ->. contradiction.
    + apply IH; auto. intros x Hx. apply Hin. now right.
Qed.

Lemma int_of_str_raise (t : string) (x : Exn) :
  int_of_str t = Raise x -> x = ValueError t.
Proof.
  unfold int_of_str.
  destruct (match rstrip (lstrip t) with
            | String "+" s' =>
                option_map Decimal.Pos (NilZero.uint_of_string s')
            | s' => NilZero.int_of_string s'
            end); [discriminate|].
  now intros [= <-].
Qed.

(** Without failing deletions, on a duplicate-free listing, the loop
    can only raise the [ValueError] of [int]. *)
Lemma prune_raises_value (files : list string) :
  forall d x,
    (forall f, rm_fails f = false) ->
    NoDup files -> incl files d ->
    prune rm_fails root epoch files d = Raise x ->
    exists t, x = ValueError t.
Proof.
  induction files as [|f rest IH]; cbn [prune]; intros d x Hrm Hnd Hin Hp;
    [discriminate|].
  inversion Hnd as [|? ? Hf Hnd']; subst.
  destruct (epoch_of_file (path_of root f)) as [k|y] eqn:Ef;
    cbn [bind] in Hp.
  - destruct (k <? Z.of_nat epoch - 1)%Z.
    + rewrite Hrm in Hp. cbn [orb] in Hp.
      assert (Hd : existsb (String.eqb f) d = true).
      { apply existsb_exists. exists f. split; [|apply String.eqb_refl].
        apply Hin. now left. }
      rewrite Hd in Hp. cbn [negb] in Hp.
      apply (IH _ _ Hrm Hnd') in Hp; auto.
      intros z Hz. apply remove_file_In. split.
      * apply Hin. now right.
      * intros ->. contradiction.
    + apply (IH _ _ Hrm Hnd') in Hp; auto.
      intros z Hz. apply Hin. now right.
  - injection Hp as <-. unfold epoch_of_file in Ef.
    apply int_of_str_raise in Ef. eauto.
Qed.

Lemma doomed_spec (d : Dir) (x : string) :
  In x d ->
  existsb (fun f => String.eqb f x && below f) (glob_pkl d) =
  doomed root epoch x.
Proof.
  intros Hx. unfold doomed. fold (below x).
  destruct (matches_pkl x) eqn:Hm; cbn [andb].
  - destruct (below x) eqn:Hb.
    + apply existsb_exists. exists x. split.
      * apply filter_In. now split.
      * now rewrite String.eqb_refl, Hb.
    + apply not_true_is_false. intros E.
      apply existsb_exists in E as (f & _ & Ef).
      apply andb_prop in Ef as [Ef Hf]. apply String.eqb_eq in Ef.
      subst f. congruence.
  - apply not_true_is_false. intros E.
    apply existsb_exists in E as (f & Hf & Ef).
    apply andb_prop in Ef as [Ef _]. apply String.eqb_eq in Ef. subst f.
    apply filter_In in Hf as [_ Hf]. congruence.
Qed.

Lemma write_file_NoDup (name : string) (d : Dir) :
  NoDup d -> NoDup (write_file name d).
Proof.
  intros Hd. unfold write_file.
  destruct (existsb (String.eqb name) d) eqn:E; [exact Hd|].
  apply NoDup_app; [exact Hd|repeat constructor; intros []|].
  intros x Hx [->|[]].
  assert (existsb (String.eqb x) d = true); [|congruence].
  apply existsb_exists. exists x. split; [exact Hx|apply String.eqb_refl].
Qed.

End MoreCheckpoints.

(** What a completed save has left of the directory. *)
Lemma save_result (rm_fails : string -> bool) (root : string)
    (epoch : nat) (d d' : Dir) :
  save_checkpoint rm_fails root epoch d = Ok d' ->
  d' = filter (fun x => negb (doomed root epoch x))
         (write_file (ckpt_name epoch) d) /\
  (forall x, In x d -> matches_pkl x = false -> In x d').
Proof.
  unfold save_checkpoint. intros Hp.
  assert (E : d' = filter (fun x => negb (doomed root epoch x))
                     (write_file (ckpt_name epoch) d)).
  { rewrite (prune_result _ _ _ _ _ _ Hp). apply filter_ext_in.
    intros x Hx. now rewrite (doomed_spec root epoch _ x Hx). }
  split; [exact E|].
  intros x Hx Hm. rewrite E. apply filter_In. split.
  - unfold write_file. destruct (existsb _ d); [exact Hx|].
    apply in_or_app. now left.
  - unfold doomed. now rewrite Hm.
Qed.

(** X1. In a directory whose name [glob] takes literally, a
    [save_checkpoint] that completes leaves the directory with the new
    checkpoint written, less the entries that match ['*.pkl'] and
    carry a number below [epoch - 1], in the order they had.  An entry
    that ['*.pkl'] does not match (another suffix, a leading dot) is
    therefore always kept.  (A save that completes has read every
    number with [int_of_str], so from ASCII digits.) *)
Theorem save_checkpoint_result (rm_fails : string -> bool) (root : string)
    (epoch : nat) (d d' : Dir) :
  plain_root root = true ->
  save_checkpoint rm_fails root epoch d = Ok d' ->
  d' = filter (fun x => negb (doomed root epoch x))
         (write_file (ckpt_name epoch) d) /\
  (forall x, In x d -> matches_pkl x = false -> In x d').
Proof.
  intros _ Hp. exact (save_result rm_fails root epoch d d' Hp).
Qed.

Lemma save_checkpoint_result_witness :
  save_checkpoint (fun _ => false) "run" 5
    ["notes.txt"; "epoch_2.pkl"; ".hidden_0.pkl"; "epoch_4.pkl"]%string
  = Ok ["notes.txt"; ".hidden_0.pkl"; "epoch_4.pkl"; "epoch_5.pkl"]%string /\
  In "notes.txt"%string
     ["notes.txt"; ".hidden_0.pkl"; "epoch_4.pkl"; "epoch_5.pkl"]%string.
Proof.
  assert (E : save_checkpoint (fun _ => false) "run" 5
      ["notes.txt"; "epoch_2.pkl"; ".hidden_0.pkl"; "epoch_4.pkl"]%string
    = Ok ["notes.txt"; ".hidden_0.pkl"; "epoch_4.pkl"; "epoch_5.pkl"]%string)
    by (vm_compute; reflexivity).
  split; [exact E|].
  apply (proj2 (save_checkpoint_result _ "run" _ _ _ eq_refl E)).
  - cbn. tauto.
  - reflexivity.
Defined.

(** X2. In a directory of ASCII names without repetition, whose own
    name is ASCII and taken literally by [glob], and with no failing
    deletion, [save_checkpoint] completes exactly when every entry
    matched by ['*.pkl'], the new checkpoint included, carries a
    number; otherwise [int] raises its [ValueError]. *)
Theorem save_checkpoint_completes_iff (rm_fails : string -> bool)
    (root : string) (epoch : nat) (d : Dir) :
  plain_root root = true ->
  ascii_only root = true ->
  Forall (fun f => ascii_only f = true) d ->
  NoDup d ->
  (forall f, rm_fails f = false) ->
  ((exists d', save_checkpoint rm_fails root epoch d = Ok d') <->
   Forall (fun f => exists k, epoch_of_file (path_of root f) = Ok k)
     (glob_pkl (write_file (ckpt_name epoch) d))) /\
  (forall x, save_checkpoint rm_fails root epoch d = Raise x ->
             exists t, x = ValueError t).
Proof.
  intros _ _ _ Hnd Hrm. unfold save_checkpoint. split; [split|].
  - intros (d' & Hp). exact (prune_ok_parses _ _ _ _ _ _ Hp).
  - intros Hall. apply prune_completes; auto.
    + apply NoDup_filter. now apply write_file_NoDup.
    + apply incl_filter.
  - intros x Hx.
    refine (prune_raises_value rm_fails root epoch _ _ x Hrm _ _ Hx).
    + apply NoDup_filter. now apply write_file_NoDup.
    + apply incl_filter.
Qed.

Lemma save_checkpoint_completes_iff_witness :
  exists d',
    save_checkpoint (fun _ => false) "run" 9
      ["epoch_3.pkl"; "notes.txt"]%string = Ok d'.
Proof.
  refine (proj2 (proj1 (save_checkpoint_completes_iff (fun _ => false) "run" 9
                          ["epoch_3.pkl"; "notes.txt"]%string _ _ _ _ _)) _).
  - reflexivity.
  - reflexivity.
  - repeat constructor.
  - repeat constructor; cbn; intuition discriminate.
  - reflexivity.
  - repeat constructor; eexists; vm_compute; reflexivity.
Defined.

(** X3. Saving the same epoch again changes nothing: after a
    [save_checkpoint] that completed, a second one for the same epoch
    completes with the same directory, even if no file could be
    deleted any more. *)
Theorem save_checkpoint_idempotent (rm_fails rm_fails' : string -> bool)
    (root : string) (epoch : nat) (d d' : Dir) :
  save_checkpoint rm_fails root epoch d = Ok d' ->
  save_checkpoint rm_fails' root epoch d' = Ok d'.
Proof.
  intros Hs.
  pose proof (save_keeps_current _ _ _ _ _ Hs) as Hcur.
  destruct (save_result _ _ _ _ _ Hs) as [E _].
  pose proof Hs as Hp. unfold save_checkpoint in Hp.
  apply prune_ok_parses in Hp.
  unfold save_checkpoint.
  assert (Hw : write_file (ckpt_name epoch) d' = d').
  { unfold write_file.
    assert (Hex : existsb (String.eqb (ckpt_name epoch)) d' = true).
    { apply existsb_exists. exists (ckpt_name epoch).
      split; [exact Hcur|apply String.eqb_refl]. }
    now rewrite Hex. }
  rewrite Hw. apply prune_nothing. apply Forall_forall. intros f Hf.
  apply filter_In in Hf as [Hf Hm]. rewrite E in Hf.
  apply filter_In in Hf as [Hf Hd].
  rewrite Forall_forall in Hp.
  destruct (Hp f) as [k Hk]; [apply filter_In; now split|].
  exists k. split; [exact Hk|].
  unfold doomed in Hd. rewrite Hm, Hk in Hd. cbn [andb] in Hd.
  apply negb_true_iff in Hd. apply Z.ltb_ge in Hd. lia.
Qed.

Lemma save_checkpoint_idempotent_witness :
  save_checkpoint (fun _ => true) "run" 5
    ["notes.txt"; "epoch_4.pkl"; "epoch_5.pkl"]%string
  = Ok ["notes.txt"; "epoch_4.pkl"; "epoch_5.pkl"]%string.
Proof.
  apply (save_checkpoint_idempotent (fun _ => false) (fun _ => true) "run" 5
           ["notes.txt"; "epoch_2.pkl"; "epoch_4.pkl"]%string).
  vm_compute. reflexivity.
Defined.

(** X4. Pruning does not tell its own checkpoints from other files:
    in a directory whose name [glob] takes literally, an entry named
    [<anything>_<n>.pkl] that does not start with a dot is gone after
    any completed save for an epoch above [n + 1], whoever wrote it. *)
Theorem save_checkpoint_deletes_foreign (rm_fails : string -> bool)
    (root : string) (epoch : nat) (d d' : Dir) (pre : string) (n : Z) :
  plain_root root = true ->
  matches_pkl (pre ++ "_" ++ str_of_int n ++ ".pkl") = true ->
  (n < Z.of_nat epoch - 1)%Z ->
  save_checkpoint rm_fails root epoch d = Ok d' ->
  ~ In (pre ++ "_" ++ str_of_int n ++ ".pkl")%string d'.
Proof.
  intros _ Hm Hn Hs Hin.
  destruct (save_result _ _ _ _ _ Hs) as [E _].
  rewrite E in Hin. apply filter_In in Hin as [_ Hd].
  unfold doomed in Hd. rewrite Hm in Hd.
  change (pre ++ "_" ++ str_of_int n ++ ".pkl")%string
    with (pre ++ "_" ++ str_of_int n ++ "." ++ "pkl")%string in Hd.
  rewrite epoch_of_printed_field in Hd by reflexivity.
  cbn [andb] in Hd. apply negb_true_iff in Hd.
  apply Z.ltb_ge in Hd. lia.
Qed.

Lemma save_checkpoint_deletes_foreign_witness :
  ~ In "best_model_3.pkl"%string
       ["notes.txt"; "epoch_9.pkl"; "epoch_10.pkl"]%string.
Proof.
  apply (save_checkpoint_deletes_foreign (fun _ => false) "run" 10
           ["notes.txt"; "best_model_3.pkl"; "epoch_9.pkl"]%string
           _ "best_model" 3).
  - reflexivity.
  - reflexivity.
  - lia.
  - vm_compute. reflexivity.
Defined.

(** ** The loop as a whole, for any scheduler *)

Section MoreRuns.

Context {S : Type} `{LRScheduler S}.
Variable params : Params.
Variable root : string.
Variable W : World.

Let sched0 : S :=
  sched_new (init_lr params) (lr_reduce_factor params)
    (lr_schedule_patience params).

Let scalars_of (k : nat) : list Scalar :=
  epoch_scalars k (epoch_in W k) (sched_lr (sched_after params W k)).

(** The lists and printed lines of an iteration that completes. *)
Lemma epoch_body_lists (e : nat) (s st : State S)
    (stop : option StopReason) :
  epoch_body params root W e s = Ok (st, stop) ->
  epoch_train_losses st =
    (epoch_train_losses s ++ [train_loss (epoch_in W e)])%list /\
  epoch_val_losses st =
    (epoch_val_losses s ++ [val_loss (epoch_in W e)])%list /\
  epoch_train_accs st =
    (epoch_train_accs s ++ [train_acc (epoch_in W e)])%list /\
  epoch_val_accs st =
    (epoch_val_accs s ++ [val_acc (epoch_in W e)])%list /\
  per_epoch_time st =
    (per_epoch_time s ++
     [t_end (epoch_in W e) - t_start (epoch_in W e)])%list /\
  filter is_stop_line (out st) =
    (filter is_stop_line (out s) ++
     match stop with
     | Some STOPPED_CONVERGED => [MsgLrMin]
     | Some STOPPED_TIMEOUT => [MsgMaxTime (max_time params)]
     | _ => []
     end)%list.
Proof.
  unfold epoch_body, epoch_work.
  destruct (save_checkpoint _ _ _ _) as [d|x]; cbn [bind]; [|discriminate].
  unfold stop_check. cbn [sched].
  destruct (Qlt_bool _ _); [|destruct (Qlt_bool _ _)];
    intros [= <- <-]; cbn [print epoch_train_losses epoch_val_losses
      epoch_train_accs epoch_val_accs per_epoch_time out];
    repeat split; rewrite !filter_app; cbn; now rewrite ?app_nil_r.
Qed.

(** What the state holds on entry to epoch [e]. *)
Lemma run_state_start (e : nat) (s : State S) :
  at_epoch_start params root W e s ->
  sched s = fold_left sched_step
              (map (fun k => val_loss (epoch_in W k)) (seq 0 e)) sched0 /\
  writer s = flat_map scalars_of (seq 0 e) /\
  epoch_train_losses s = map (fun k => train_loss (epoch_in W k)) (seq 0 e) /\
  epoch_val_losses s = map (fun k => val_loss (epoch_in W k)) (seq 0 e) /\
  epoch_train_accs s = map (fun k => train_acc (epoch_in W k)) (seq 0 e) /\
  epoch_val_accs s = map (fun k => val_acc (epoch_in W k)) (seq 0 e) /\
  per_epoch_time s =
    map (fun k => t_end (epoch_in W k) - t_start (epoch_in W k)) (seq 0 e) /\
  filter is_stop_line (out s) = [].
Proof.
  induction 1 as [Hpos | e s st Hs IH Hb Hlt].
  - cbn. repeat split.
  - destruct IH as (I1 & I2 & I3 & I4 & I5 & I6 & I7 & I8).
    pose proof (epoch_body_lists _ _ _ _ Hb) as (L3 & L4 & L5 & L6 & L7 & L8).
    apply epoch_body_inv in Hb as (_ & Hsched & Hw & _).
    assert (Esched : sched st =
              fold_left sched_step
                (map (fun k => val_loss (epoch_in W k))
                   (seq 0 (Datatypes.S e))) sched0).
    { rewrite seq_S, map_app, fold_left_app, <- I1. exact Hsched. }
    split; [exact Esched|].
    rewrite seq_S, !map_app, flat_map_app. cbn [Nat.add map flat_map].
    rewrite app_nil_r.
    rewrite L3, L4, L5, L6, L7, L8, I3, I4, I5, I6, I7, I8, Hw, I2.
    repeat split. rewrite Esched. reflexivity.
Qed.

Lemma run_state_end (e : nat) (st : State S) (stop : option StopReason) :
  at_epoch_end params root W e st stop ->
  sched st = sched_after params W e /\
  writer st = flat_map scalars_of (seq 0 (Datatypes.S e)) /\
  epoch_train_losses st =
    map (fun k => train_loss (epoch_in W k)) (seq 0 (Datatypes.S e)) /\
  epoch_val_losses st =
    map (fun k => val_loss (epoch_in W k)) (seq 0 (Datatypes.S e)) /\
  epoch_train_accs st =
    map (fun k => train_acc (epoch_in W k)) (seq 0 (Datatypes.S e)) /\
  epoch_val_accs st =
    map (fun k => val_acc (epoch_in W k)) (seq 0 (Datatypes.S e)) /\
  per_epoch_time st =
    map (fun k => t_end (epoch_in W k) - t_start (epoch_in W k))
      (seq 0 (Datatypes.S e)) /\
  filter is_stop_line (out st) =
    match stop with
    | Some STOPPED_CONVERGED => [MsgLrMin]
    | Some STOPPED_TIMEOUT => [MsgMaxTime (max_time params)]
    | _ => []
    end.
Proof.
  intros (s & Hs & Hb).
  destruct (run_state_start _ _ Hs) as (I1 & I2 & I3 & I4 & I5 & I6 & I7 & I8).
  pose proof (epoch_body_lists _ _ _ _ Hb) as (L3 & L4 & L5 & L6 & L7 & L8).
  apply epoch_body_inv in Hb as (_ & Hsched & Hw & _).
  assert (Esched : sched st = sched_after params W e).
  { unfold sched_after. rewrite seq_S, map_app, fold_left_app.
    fold sched0. rewrite <- I1. exact Hsched. }
  split; [exact Esched|].
  rewrite seq_S, !map_app, flat_map_app. cbn [Nat.add map flat_map].
  rewrite app_nil_r.
  rewrite L3, L4, L5, L6, L7, L8, I3, I4, I5, I6, I7, I8, Hw, I2.
  repeat split. rewrite Esched. reflexivity.
Qed.

(** The stop taken at the end of an epoch, on the closed form of the
    rate. *)
Lemma run_stop_end (e : nat) (st : State S) (stop : option StopReason) :
  at_epoch_end params root W e st stop ->
  stop = (if Qlt_bool (sched_lr (sched_after params W e)) (min_lr params)
          then Some STOPPED_CONVERGED
          else if Qlt_bool (max_time params * 3600)
                           (t_check (epoch_in W e) - t0 W)
               then Some STOPPED_TIMEOUT
               else None).
Proof.
  intros Hend. destruct (run_state_end _ _ _ Hend) as (Es & _).
  destruct Hend as (s & _ & Hb).
  apply epoch_body_inv in Hb as (_ & _ & _ & Hstop).
  now rewrite Es in Hstop.
Qed.

(** The loop enters an epoch only after epochs that took no stop. *)
Lemma run_no_stop_before (e : nat) (s : State S) :
  at_epoch_start params root W e s ->
  forall k, (k < e)%nat ->
    ~ rate_low params W k /\ ~ over_time params W k.
Proof.
  induction 1 as [Hpos | e s st Hs IH Hb Hlt]; intros k Hk; [lia|].
  destruct (Nat.eq_dec k e) as [->|Hne]; [|apply IH; lia].
  assert (Hend : at_epoch_end params root W e st None)
    by (exists s; auto).
  apply run_stop_end in Hend. unfold rate_low, over_time.
  rewrite <- !Qlt_bool_false.
  destruct (Qlt_bool _ _); [discriminate|].
  destruct (Qlt_bool _ _); [discriminate|]. auto.
Qed.

Lemma pipeline_ok_inv (x : Exit) :
  train_val_pipeline params root W = Ok x ->
  exists y, loop params root W (epochs params) 0 (init_state params W) = Ok y /\
            x = finish W y.
Proof.
  unfold train_val_pipeline.
  destruct (loop _ _ _ _ _ _) as [y|]; cbn [bind]; [|discriminate].
  intros [= <-]. eauto.
Qed.

Lemma pipeline_raise_inv (x : Exn) :
  train_val_pipeline params root W = Raise x ->
  loop params root W (epochs params) 0 (init_state params W) = Raise x.
Proof.
  unfold train_val_pipeline.
  destruct (loop _ _ _ _ _ _) as [y|]; cbn [bind]; [discriminate|].
  now intros [= <-].
Qed.

(** An exception of the loop is the exception of one iteration. *)
Lemma loop_raise_inv (n : nat) :
  forall (e : nat) (s : State S) (x : Exn),
    at_epoch_start params root W e s ->
    (e + Datatypes.S n = epochs params)%nat ->
    loop params root W (Datatypes.S n) e s = Raise x ->
    exists e' s', at_epoch_start params root W e' s' /\
                  epoch_body params root W e' s' = Raise x.
Proof.
  induction n as [|n IH]; intros e s x Hs He; cbn [loop].
  - destruct (epoch_body params root W e s) as [[st [why|]]|y] eqn:Hb;
      cbn [bind]; try discriminate.
    intros [= <-]. eauto.
  - destruct (epoch_body params root W e s) as [[st [why|]]|y] eqn:Hb;
      cbn [bind]; try discriminate.
    + apply IH; [|lia]. econstructor; eauto. lia.
    + intros [= <-]. eauto.
Qed.

End MoreRuns.

Section MoreExits.

Context {S : Type} `{LRScheduler S}.
Variable params : Params.
Variable root : string.
Variable W : World.

(** Every normal return of the pipeline: no epoch at all, or the end
    of the last epoch run followed by the summary lines. *)
Lemma pipeline_exit (x : Exit) :
  train_val_pipeline params root W = Ok x ->
  (epochs params = 0%nat /\ epochs_run x = 0%nat /\
   reason x = STOPPED_MAX_EPOCHS /\
   quiet (final x) = quiet (init_state params W)) \/
  exists e stop st,
    epochs_run x = Datatypes.S e /\
    at_epoch_end params root W e st stop /\
    quiet (final x) = quiet st /\
    filter is_stop_line (out (final x)) = filter is_stop_line (out st) /\
    (stop = Some (reason x) \/
     stop = None /\ reason x = STOPPED_MAX_EPOCHS /\
     Datatypes.S e = epochs params).
Proof.
  intros Hp. apply pipeline_ok_inv in Hp as (y & Hl & ->).
  apply loop_exit in Hl as [(E0 & E1 & E2 & E3)|(e & stop & E1 & Hend & Hr)].
  - left. cbn. rewrite E2. auto.
  - right. exists e, stop, (final y). cbn. rewrite !filter_app. cbn.
    rewrite !app_nil_r. auto.
Qed.

(** From an empty directory every iteration reaches its save with the
    two newest checkpoints, so the save can only stumble on deleting
    the older of them. *)
Lemma fresh_save (e : nat) (s : State S) :
  dir0 W = [] ->
  at_epoch_start params root W e s ->
  save_checkpoint (remove_fails W e) root e (ckpt_dir s) =
  match e with
  | Datatypes.S (Datatypes.S k) =>
      if remove_fails W e (ckpt_name k)
      then Raise (OSError (path_of root (ckpt_name k)))
      else Ok (retained e)
  | _ => Ok (retained e)
  end.
Proof.
  intros Hfresh Hs. rewrite (run_dir_start params root W Hfresh e s Hs).
  destruct e as [|[|k]].
  - apply save_first.
  - apply save_second.
  - apply save_later.
Qed.

Lemma epoch_body_of_save (e : nat) (s : State S) :
  (exists d, save_checkpoint (remove_fails W e) root e (ckpt_dir s) = Ok d /\
             exists st stop, epoch_body params root W e s = Ok (st, stop)) \/
  (exists x, save_checkpoint (remove_fails W e) root e (ckpt_dir s) = Raise x /\
             epoch_body params root W e s = Raise x).
Proof.
  unfold epoch_body, epoch_work.
  destruct (save_checkpoint _ _ _ _) as [d|x]; cbn [bind].
  - left. exists d. split; [reflexivity|].
    destruct (stop_check _ _ _ _) as [st stop]. eauto.
  - right. eauto.
Qed.

Lemma loop_total (n : nat) :
  dir0 W = [] ->
  (forall e f, remove_fails W e f = false) ->
  forall (e : nat) (s : State S),
    at_epoch_start params root W e s ->
    (e + Datatypes.S n = epochs params)%nat ->
    exists x, loop params root W (Datatypes.S n) e s = Ok x.
Proof.
  intros Hfresh Hrm. induction n as [|n IH]; intros e s Hs He; cbn [loop].
  - destruct (epoch_body_of_save e s)
      as [(d & _ & st & stop & ->)|(x & Hx & _)].
    + cbn [bind]. destruct stop; eauto.
    + rewrite (fresh_save e s Hfresh Hs) in Hx.
      destruct e as [|[|k]]; try discriminate.
      now rewrite Hrm in Hx.
  - destruct (epoch_body_of_save e s)
      as [(d & _ & st & stop & Hb)|(x & Hx & _)].
    + rewrite Hb. cbn [bind]. destruct stop; [eauto|].
      apply IH; [|lia]. econstructor; eauto. lia.
    + rewrite (fresh_save e s Hfresh Hs) in Hx.
      destruct e as [|[|k]]; try discriminate.
      now rewrite Hrm in Hx.
Qed.

End MoreExits.

(** The bound on the epochs of a returned pipeline. *)
Lemma pipeline_bound
    {S : Type} `{LRScheduler S} (params : Params) (root : string)
    (W : World) (x : Exit) :
  train_val_pipeline params root W = Ok x ->
  (epochs_run x <= epochs params)%nat /\
  (reason x = STOPPED_MAX_EPOCHS -> epochs_run x = epochs params) /\
  (epochs params = 0%nat ->
   epochs_run x = 0%nat /\ reason x = STOPPED_MAX_EPOCHS /\
   writer (final x) = [] /\ ckpt_dir (final x) = dir0 W).
Proof.
  intros Hp.
  destruct (pipeline_exit params root W x Hp)
    as [(E0 & E1 & E2 & E3)|(e & stop & st & E1 & Hend & _ & _ & Hr)].
  - rewrite E0, E1. repeat split; auto.
    + now apply (f_equal writer) in E3.
    + now apply (f_equal ckpt_dir) in E3.
  - pose proof Hend as (s & Hs & _).
    apply at_epoch_start_lt in Hs. rewrite E1. split; [lia|]. split.
    + intros Hmax. destruct Hr as [->|(_ & _ & He)]; [|exact He].
      destruct Hend as (s0 & _ & Hb).
      apply epoch_body_inv in Hb as (_ & _ & _ & Hstop).
      rewrite Hmax in Hstop.
      destruct (Qlt_bool _ _); [discriminate|].
      destruct (Qlt_bool _ _); discriminate.
    + intros E0. lia.
Qed.

(** X8. The loop never runs more epochs than [params['epochs']], and it
    ends for want of epochs only after exactly that many.  With
    [epochs = 0] it runs none: no scalar is written and the checkpoint
    directory is as it was found. *)
Theorem pipeline_epochs_bound
    {S : Type} `{LRScheduler S} (params : Params) (root : string)
    (W : World) (x : Exit) :
  train_val_pipeline params root W = Ok x ->
  (epochs_run x <= epochs params)%nat /\
  (reason x = STOPPED_MAX_EPOCHS -> epochs_run x = epochs params) /\
  (epochs params = 0%nat ->
   epochs_run x = 0%nat /\ reason x = STOPPED_MAX_EPOCHS /\
   writer (final x) = [] /\ ckpt_dir (final x) = dir0 W).
Proof.
  exact (pipeline_bound params root W x).
Qed.

Lemma pipeline_epochs_bound_witness :
  exists x : Exit (S := Plateau),
    train_val_pipeline short_params "run" steady_world = Ok x /\
    (epochs_run x <= 5)%nat.
Proof.
  eexists. split; [vm_compute; reflexivity|].
  refine (proj1 (pipeline_epochs_bound short_params "run" steady_world _ _)).
  vm_compute. reflexivity.
Defined.

(** The exit of a returned pipeline, by the two stop tests. *)
Lemma pipeline_reason
    {S : Type} `{LRScheduler S} (params : Params) (root : string)
    (W : World) (x : Exit) (e : nat) :
  train_val_pipeline params root W = Ok x ->
  epochs_run x = Datatypes.S e ->
  (reason x = STOPPED_CONVERGED <-> rate_low params W e) /\
  (reason x = STOPPED_TIMEOUT <->
   ~ rate_low params W e /\ over_time params W e) /\
  (reason x = STOPPED_MAX_EPOCHS <->
   ~ rate_low params W e /\ ~ over_time params W e) /\
  (reason x = STOPPED_MAX_EPOCHS -> Datatypes.S e = epochs params) /\
  (forall k, (k < e)%nat ->
     ~ rate_low params W k /\ ~ over_time params W k).
Proof.
  intros Hp He.
  destruct (pipeline_exit params root W x Hp)
    as [(_ & E1 & _)|(e' & stop & st & E1 & Hend & _ & _ & Hr)];
    [congruence|].
  assert (e' = e) as -> by congruence.
  pose proof (run_stop_end params root W e st stop Hend) as Hstop.
  pose proof Hend as (s & Hs & _).
  pose proof (run_no_stop_before params root W e s Hs) as Hbefore.
  assert (Hfour :
    (reason x = STOPPED_CONVERGED <-> rate_low params W e) /\
    (reason x = STOPPED_TIMEOUT <->
     ~ rate_low params W e /\ over_time params W e) /\
    (reason x = STOPPED_MAX_EPOCHS <->
     ~ rate_low params W e /\ ~ over_time params W e) /\
    (reason x = STOPPED_MAX_EPOCHS -> Datatypes.S e = epochs params));
    [|tauto].
  clear Hbefore. unfold rate_low, over_time.
  rewrite <- !Qlt_bool_false, <- !Qlt_bool_iff.
  destruct (Qlt_bool (sched_lr (sched_after params W e)) (min_lr params));
    [|destruct (Qlt_bool (max_time params * 3600)
                 (t_check (epoch_in W e) - t0 W))]; subst stop.
  - destruct Hr as [Hr|(Hr & _)]; [|discriminate Hr].
    injection Hr as Hr. rewrite <- Hr.
    intuition (try discriminate; auto).
  - destruct Hr as [Hr|(Hr & _)]; [|discriminate Hr].
    injection Hr as Hr. rewrite <- Hr.
    intuition (try discriminate; auto).
  - destruct Hr as [Hr|(_ & Hmax & Hlast)]; [discriminate Hr|].
    rewrite Hmax. intuition (try discriminate; auto).
Qed.

(** X9. Why the loop was left is read off the first epoch at which a
    stop test holds.  If the pipeline returns after [e + 1] epochs:
    the reason is the learning-rate one exactly when the rate after
    epoch [e] is below [min_lr]; the time-budget one exactly when it
    is not and the time since [t0] exceeds the budget; the end of the
    range exactly when neither holds, and then [e + 1] is
    [params['epochs']]; and at no earlier epoch did either test hold. *)
Theorem pipeline_stop_reason
    {S : Type} `{LRScheduler S} (params : Params) (root : string)
    (W : World) (x : Exit) (e : nat) :
  train_val_pipeline params root W = Ok x ->
  epochs_run x = Datatypes.S e ->
  (reason x = STOPPED_CONVERGED <-> rate_low params W e) /\
  (reason x = STOPPED_TIMEOUT <->
   ~ rate_low params W e /\ over_time params W e) /\
  (reason x = STOPPED_MAX_EPOCHS <->
   ~ rate_low params W e /\ ~ over_time params W e) /\
  (reason x = STOPPED_MAX_EPOCHS -> Datatypes.S e = epochs params) /\
  (forall k, (k < e)%nat ->
     ~ rate_low params W k /\ ~ over_time params W k).
Proof.
  exact (pipeline_reason params root W x e).
Qed.

Lemma pipeline_stop_reason_witness :
  exists x : Exit (S := Plateau),
    train_val_pipeline (floor_params 5 5 0) "run" steady_world = Ok x /\
    (reason x = STOPPED_TIMEOUT <->
     ~ rate_low (S := Plateau) (floor_params 5 5 0) steady_world 0 /\
     over_time (floor_params 5 5 0) steady_world 0).
Proof.
  eexists. split; [vm_compute; reflexivity|].
  refine (proj1 (proj2 (pipeline_stop_reason (floor_params 5 5 0) "run"
                          steady_world _ 0 _ _))).
  - vm_compute. reflexivity.
  - reflexivity.
Defined.

(** On an empty directory and without failing deletions the loop and
    the lines after it run to their end. *)
Lemma pipeline_returns_fresh
    {S : Type} `{LRScheduler S} (params : Params) (root : string)
    (W : World) :
  dir0 W = [] ->
  (forall e f, remove_fails W e f = false) ->
  exists x,
    train_val_pipeline params root W = Ok x /\
    ((forall e, (e < epochs params)%nat ->
        ~ rate_low params W e /\ ~ over_time params W e) ->
     reason x = STOPPED_MAX_EPOCHS /\ epochs_run x = epochs params).
Proof.
  intros Hfresh Hrm.
  assert (Hl : exists y, loop params root W (epochs params) 0
                           (init_state params W) = Ok y).
  { destruct (Nat.eq_dec (epochs params) 0) as [E0|Hne].
    - rewrite E0. cbn. eauto.
    - assert (En : exists n, epochs params = Datatypes.S n)
        by (exists (pred (epochs params)); lia).
      destruct En as (n & En). rewrite En.
      apply (loop_total params root W n Hfresh Hrm); [|lia].
      constructor. lia. }
  destruct Hl as (y & Hl).
  assert (Hp : train_val_pipeline params root W = Ok (finish W y)).
  { unfold train_val_pipeline. now rewrite Hl. }
  exists (finish W y). split; [exact Hp|]. intros Hnone.
  destruct (pipeline_bound params root W _ Hp) as (Hle & Hmax & H0).
  destruct (epochs_run (finish W y)) as [|e] eqn:Erun.
  - destruct (pipeline_exit params root W _ Hp)
      as [(E0 & _ & E2 & _)|(e & stop & st & E1 & _)]; [|congruence].
    split; [exact E2|]. congruence.
  - destruct (pipeline_reason params root W _ e Hp Erun)
      as (Hc & Ht & Hm & _).
    destruct (Hnone e) as [Hlow Hover]; [lia|].
    assert (Hr : reason (finish W y) = STOPPED_MAX_EPOCHS)
      by (apply Hm; auto).
    split; [exact Hr|]. exact (Hmax Hr).
Qed.

(** X10. Once the optimizer and scheduler constructors have accepted
    the parameters, a pipeline started on an empty checkpoint
    directory, whose name [glob] takes literally, and with no deletion
    failing always returns: [save_checkpoint] meets only names it
    wrote itself.  If moreover no stop test holds at any epoch below
    [params['epochs']], it runs exactly that many epochs and ends for
    want of epochs. *)
Theorem pipeline_returns
    {S : Type} `{LRScheduler S} (params : Params) (root : string)
    (W : World) :
  constructors_accept params ->
  plain_root root = true ->
  dir0 W = [] ->
  (forall e f, remove_fails W e f = false) ->
  exists x,
    train_val_pipeline params root W = Ok x /\
    ((forall e, (e < epochs params)%nat ->
        ~ rate_low params W e /\ ~ over_time params W e) ->
     reason x = STOPPED_MAX_EPOCHS /\ epochs_run x = epochs params).
Proof.
  intros _ _ Hfresh Hrm.
  exact (pipeline_returns_fresh params root W Hfresh Hrm).
Qed.

Lemma pipeline_returns_witness :
  exists x : Exit (S := Plateau),
    train_val_pipeline short_params "run" steady_world = Ok x /\
    reason x = STOPPED_MAX_EPOCHS /\ epochs_run x = 5%nat.
Proof.
  destruct (pipeline_returns (S := Plateau) short_params "run" steady_world)
    as (x & Hx & Hmax).
  - split; vm_compute; [discriminate|reflexivity].
  - reflexivity.
  - reflexivity.
  - intros e f. reflexivity.
  - exists x. split; [exact Hx|]. apply Hmax. intros e He.
    do 5 (destruct e as [|e];
          [split; vm_compute; discriminate|]).
    cbn in He. lia.
Defined.

(** X11. When the pipeline returns after [n] epochs, its four metric
    lists and [per_epoch_time] hold one value per epoch run, in epoch
    order: the train loss, validation loss, train accuracy and
    validation accuracy that epoch obtained, and the difference of its
    two clock readings. *)
Theorem pipeline_histories
    {S : Type} `{LRScheduler S} (params : Params) (root : string)
    (W : World) (x : Exit) :
  train_val_pipeline params root W = Ok x ->
  epoch_train_losses (final x) =
    map (fun k => train_loss (epoch_in W k)) (seq 0 (epochs_run x)) /\
  epoch_val_losses (final x) =
    map (fun k => val_loss (epoch_in W k)) (seq 0 (epochs_run x)) /\
  epoch_train_accs (final x) =
    map (fun k => train_acc (epoch_in W k)) (seq 0 (epochs_run x)) /\
  epoch_val_accs (final x) =
    map (fun k => val_acc (epoch_in W k)) (seq 0 (epochs_run x)) /\
  per_epoch_time (final x) =
    map (fun k => t_end (epoch_in W k) - t_start (epoch_in W k))
      (seq 0 (epochs_run x)).
Proof.
  intros Hp.
  destruct (pipeline_exit params root W x Hp)
    as [(_ & E1 & _ & Eq)|(e & stop & st & E1 & Hend & Eq & _)];
    rewrite E1; apply quiet_eq in Eq as (_ & _ & _ & -> & -> & -> & -> & ->).
  - cbn. repeat split.
  - destruct (run_state_end params root W e st stop Hend)
      as (_ & _ & -> & -> & -> & -> & -> & _).
    repeat split.
Qed.

Lemma pipeline_histories_witness :
  exists x : Exit (S := Plateau),
    train_val_pipeline short_params "run" steady_world = Ok x /\
    epoch_val_losses (final x) = [1 # 2; 1 # 2; 1 # 2; 1 # 2; 1 # 2].
Proof.
  assert (Hx : exists x : Exit (S := Plateau),
             train_val_pipeline short_params "run" steady_world = Ok x /\
             epochs_run x = 5%nat).
  { eexists. split; [vm_compute; reflexivity|reflexivity]. }
  destruct Hx as (x & Hx & Hn). exists x. split; [exact Hx|].
  rewrite (proj1 (proj2 (pipeline_histories short_params "run"
                           steady_world x Hx))).
  rewrite Hn. reflexivity.
Defined.

(** X12. The scheduler is stepped once per epoch, with that epoch's
    validation loss and nothing else: when the pipeline returns after
    [n] epochs its scheduler is the initial one after [n] steps on the
    validation losses of epochs [0 .. n-1], in order. *)
Theorem pipeline_scheduler_steps
    {S : Type} `{LRScheduler S} (params : Params) (root : string)
    (W : World) (x : Exit) :
  train_val_pipeline params root W = Ok x ->
  sched (final x) =
  fold_left sched_step
    (map (fun k => val_loss (epoch_in W k)) (seq 0 (epochs_run x)))
    (sched_new (init_lr params) (lr_reduce_factor params)
       (lr_schedule_patience params)).
Proof.
  intros Hp.
  destruct (pipeline_exit params root W x Hp)
    as [(_ & E1 & _ & Eq)|(e & stop & st & E1 & Hend & Eq & _)];
    rewrite E1; apply quiet_eq in Eq as (-> & _).
  - reflexivity.
  - now destruct (run_state_end params root W e st stop Hend) as (-> & _).
Qed.

Lemma pipeline_scheduler_steps_witness :
  exists x : Exit (S := Plateau),
    train_val_pipeline short_params "run" steady_world = Ok x /\
    num_bad_epochs (sched (final x)) = 4%nat.
Proof.
  assert (Hx : exists x : Exit (S := Plateau),
             train_val_pipeline short_params "run" steady_world = Ok x /\
             epochs_run x = 5%nat).
  { eexists. split; [vm_compute; reflexivity|reflexivity]. }
  destruct Hx as (x & Hx & Hn). exists x. split; [exact Hx|].
  rewrite (pipeline_scheduler_steps short_params "run" steady_world x Hx).
  rewrite Hn. reflexivity.
Defined.

(** X13. The whole log of the writer is determined by the validation
    losses: when the pipeline returns after [n] epochs the log is, for
    the epochs [0 .. n-1] in order, the five scalars of each, the
    learning rate being the rate of the scheduler after that epoch's
    step.  The steps of the log therefore never decrease. *)
Theorem pipeline_writer_log
    {S : Type} `{LRScheduler S} (params : Params) (root : string)
    (W : World) (x : Exit) :
  train_val_pipeline params root W = Ok x ->
  writer (final x) =
    flat_map (fun k => epoch_scalars k (epoch_in W k)
                         (sched_lr (sched_after params W k)))
      (seq 0 (epochs_run x)) /\
  List.length (writer (final x)) = (5 * epochs_run x)%nat /\
  (forall i j a b, (i <= j)%nat ->
     nth_error (writer (final x)) i = Some a ->
     nth_error (writer (final x)) j = Some b ->
     (step a <= step b)%nat).
Proof.
  intros Hp.
  assert (E : writer (final x) =
    flat_map (fun k => epoch_scalars k (epoch_in W k)
                         (sched_lr (sched_after params W k)))
      (seq 0 (epochs_run x))).
  { destruct (pipeline_exit params root W x Hp)
      as [(_ & E1 & _ & Eq)|(e & stop & st & E1 & Hend & Eq & _)];
      rewrite E1; apply quiet_eq in Eq as (_ & _ & -> & _).
    - reflexivity.
    - now destruct (run_state_end params root W e st stop Hend)
        as (_ & -> & _). }
  split; [exact E|]. rewrite E. generalize (epochs_run x). intros n.
  assert (Hnth : forall i a,
    nth_error (flat_map (fun k => epoch_scalars k (epoch_in W k)
                         (sched_lr (sched_after params W k))) (seq 0 n)) i
      = Some a -> step a = (i / 5)%nat).
  { induction n as [|n IH]; intros i a.
    - cbn. destruct i; discriminate.
    - rewrite seq_S, flat_map_app. cbn [flat_map Nat.add].
      rewrite app_nil_r.
      assert (Hlen : List.length (flat_map (fun k => epoch_scalars k
                 (epoch_in W k) (sched_lr (sched_after params W k)))
                 (seq 0 n)) = (5 * n)%nat).
      { clear. induction n as [|n IHn]; [reflexivity|].
        rewrite seq_S, flat_map_app, length_app, IHn. cbn. lia. }
      destruct (Nat.lt_ge_cases i (5 * n)) as [Hlt|Hge].
      + rewrite nth_error_app1 by (rewrite Hlen; exact Hlt). apply IH.
      + rewrite nth_error_app2 by (rewrite Hlen; exact Hge).
        rewrite Hlen. intros Hn.
        assert (Hi : (i - 5 * n < List.length
                   (epoch_scalars n (epoch_in W n)
                      (sched_lr (sched_after params W n))))%nat).
        { apply nth_error_Some. rewrite Hn. discriminate. }
        cbn [epoch_scalars List.length] in Hi.
        assert (Hs : step a = n).
        { remember (i - 5 * n)%nat as m.
          do 5 (destruct m as [|m]; [now injection Hn as <-|]). lia. }
        rewrite Hs. apply Nat.div_unique with (r := (i - 5 * n)%nat); lia. }
  split.
  - clear. induction n as [|n IHn]; [reflexivity|].
    rewrite seq_S, flat_map_app, length_app, IHn. cbn. lia.
  - intros i j a b Hij Ha Hb.
    rewrite (Hnth i a Ha), (Hnth j b Hb).
    apply Nat.Div0.div_le_mono. exact Hij.
Qed.

Lemma pipeline_writer_log_witness :
  exists x : Exit (S := Plateau),
    train_val_pipeline short_params "run" steady_world = Ok x /\
    List.length (writer (final x)) = 25%nat.
Proof.
  assert (Hx : exists x : Exit (S := Plateau),
             train_val_pipeline short_params "run" steady_world = Ok x /\
             epochs_run x = 5%nat).
  { eexists. split; [vm_compute; reflexivity|reflexivity]. }
  destruct Hx as (x & Hx & Hn). exists x. split; [exact Hx|].
  rewrite (proj1 (proj2 (pipeline_writer_log short_params "run"
                           steady_world x Hx))).
  rewrite Hn. reflexivity.
Defined.

(** X14. Once the optimizer and scheduler constructors have accepted
    the parameters, a pipeline started on an empty checkpoint
    directory, whose name [glob] takes literally, can raise one
    exception only from its loop: the [OSError] of deleting the
    checkpoint of some epoch [k], raised in epoch [k + 2], which the
    loop had reached without a stop. *)
Theorem pipeline_exception
    {S : Type} `{LRScheduler S} (params : Params) (root : string)
    (W : World) (x : Exn) :
  constructors_accept params ->
  plain_root root = true ->
  dir0 W = [] ->
  train_val_pipeline params root W = Raise x ->
  exists k,
    x = OSError (path_of root (ckpt_name k)) /\
    remove_fails W (Datatypes.S (Datatypes.S k)) (ckpt_name k) = true /\
    (Datatypes.S (Datatypes.S k) < epochs params)%nat /\
    (forall e, (e <= Datatypes.S k)%nat ->
       ~ rate_low params W e /\ ~ over_time params W e).
Proof.
  intros _ _ Hfresh Hp. apply pipeline_raise_inv in Hp.
  destruct (epochs params) as [|n] eqn:En; [discriminate|].
  apply (loop_raise_inv params root W n 0 (init_state params W)) in Hp
    as (e & s & Hs & Hb).
  - destruct (epoch_body_of_save params root W e s)
      as [(d & _ & st & stop & Hok)|(y & Hsave & Hraise)];
      [congruence|].
    assert (y = x) as -> by congruence.
    rewrite (fresh_save params root W e s Hfresh Hs) in Hsave.
    destruct e as [|[|k]]; try discriminate.
    destruct (remove_fails W (Datatypes.S (Datatypes.S k)) (ckpt_name k))
      eqn:Hrm; [|discriminate].
    injection Hsave as <-. exists k.
    split; [reflexivity|]. split; [exact Hrm|]. split.
    + apply at_epoch_start_lt in Hs. lia.
    + intros e He. apply (run_no_stop_before params root W _ s Hs). lia.
  - constructor. lia.
  - lia.
Qed.

Lemma pipeline_exception_witness :
  exists k,
    OSError "run/epoch_0.pkl" = OSError (path_of "run" (ckpt_name k)) /\
    remove_fails locked_world (Datatypes.S (Datatypes.S k)) (ckpt_name k)
      = true.
Proof.
  destruct (pipeline_exception (S := Plateau) short_params "run"
              locked_world (OSError "run/epoch_0.pkl"))
    as (k & Hk & Hrm & _).
  - split; vm_compute; [discriminate|reflexivity].
  - reflexivity.
  - reflexivity.
  - vm_compute. reflexivity.
  - exists k. auto.
Defined.

(** X15. The lines printed tell why the loop was left: of the two stop
    lines, a returned pipeline has printed the learning-rate line,
    once, exactly when it stopped for the rate; the time-budget line,
    once, with [max_time], exactly when it stopped for the time; and
    neither when the epochs ran out. *)
Theorem pipeline_stop_line
    {S : Type} `{LRScheduler S} (params : Params) (root : string)
    (W : World) (x : Exit) :
  train_val_pipeline params root W = Ok x ->
  filter is_stop_line (out (final x)) =
  match reason x with
  | STOPPED_CONVERGED => [MsgLrMin]
  | STOPPED_TIMEOUT => [MsgMaxTime (max_time params)]
  | STOPPED_MAX_EPOCHS => []
  end.
Proof.
  intros Hp. pose proof Hp as Hq.
  apply pipeline_ok_inv in Hq as (y & Hl & ->).
  apply loop_exit in Hl as [(_ & _ & E2 & E3)|(e & stop & _ & Hend & Hr)];
    cbn [final finish reason print out]; rewrite !filter_app; cbn [filter
      is_stop_line]; rewrite !app_nil_r.
  - rewrite E2, E3. reflexivity.
  - destruct (run_state_end params root W e _ stop Hend)
      as (_ & _ & _ & _ & _ & _ & _ & ->).
    destruct Hr as [->|(-> & -> & _)]; [|reflexivity].
    destruct (reason y); reflexivity.
Qed.

Lemma pipeline_stop_line_witness :
  exists x : Exit (S := Plateau),
    train_val_pipeline (floor_params 5 5 0) "run" steady_world = Ok x /\
    filter is_stop_line (out (final x)) = [MsgMaxTime 0].
Proof.
  assert (Hx : exists x : Exit (S := Plateau),
             train_val_pipeline (floor_params 5 5 0) "run" steady_world
               = Ok x /\ reason x = STOPPED_TIMEOUT).
  { eexists. split; [vm_compute; reflexivity|reflexivity]. }
  destruct Hx as (x & Hx & Hr). exists x. split; [exact Hx|].
  rewrite (pipeline_stop_line (floor_params 5 5 0) "run" steady_world x Hx).
  rewrite Hr. reflexivity.
Defined.

(** ** [view_model_param] *)

Section ParamCount.

Local Open Scope Z_scope.

Lemma wrap64_small (z : Z) : - 2 ^ 63 <= z < 2 ^ 63 -> wrap64 z = z.
Proof.
  intros Hz. unfold wrap64. rewrite Z.mod_small; lia.
Qed.

Lemma wrap64_congr (a b : Z) :
  a mod 2 ^ 64 = b mod 2 ^ 64 -> wrap64 a = wrap64 b.
Proof.
  intros E. unfold wrap64. f_equal.
  rewrite (Z.add_mod a), (Z.add_mod b), E by lia. reflexivity.
Qed.

Lemma wrap64_mod (z : Z) : wrap64 z mod 2 ^ 64 = z mod 2 ^ 64.
Proof.
  unfold wrap64. rewrite Zminus_mod_idemp_l. f_equal. lia.
Qed.

Lemma wrap64_mul_l (a b : Z) : wrap64 (wrap64 a * b) = wrap64 (a * b).
Proof.
  apply wrap64_congr.
  rewrite Z.mul_mod, wrap64_mod, <- Z.mul_mod by lia. reflexivity.
Qed.

Lemma wrap64_add (a b : Z) : wrap64 (wrap64 a + wrap64 b) = wrap64 (a + b).
Proof.
  apply wrap64_congr.
  rewrite Z.add_mod, !wrap64_mod, <- Z.add_mod by lia. reflexivity.
Qed.

Lemma wrap64_idem (a : Z) : wrap64 (wrap64 a) = wrap64 a.
Proof. apply wrap64_congr, wrap64_mod. Qed.

Lemma np_prod_fold (size : list nat) :
  forall a, size <> [] ->
    fold_left (fun acc d => wrap64 (acc * Z.of_nat d)) size a =
    wrap64 (a * size_count size).
Proof.
  induction size as [|d rest IH]; intros a Hne; [contradiction|].
  cbn [fold_left size_count fold_right].
  destruct rest as [|d' rest'].
  - cbn. f_equal. lia.
  - rewrite IH by discriminate. rewrite wrap64_mul_l. f_equal.
    fold (size_count (d' :: rest')). lia.
Qed.

Lemma np_prod_int (size : list nat) :
  size <> [] -> np_prod size = NInt (wrap64 (size_count size)).
Proof.
  intros Hne. unfold np_prod. destruct size as [|d rest]; [contradiction|].
  rewrite np_prod_fold by discriminate. f_equal. f_equal. lia.
Qed.

Lemma view_model_param_fold (sizes : list (list nat)) :
  forall acc,
    Forall (fun size => size <> []) sizes ->
    fold_left (fun total size => num_add total (np_prod size)) sizes
      (NInt (wrap64 acc)) =
    NInt (wrap64 (acc + param_count sizes)).
Proof.
  induction sizes as [|size rest IH]; intros acc Hall; cbn [fold_left].
  - cbn [param_count fold_right]. now rewrite Z.add_0_r.
  - inversion Hall as [|? ? Hne Hrest]; subst.
    rewrite np_prod_int by exact Hne. cbn [num_add].
    rewrite wrap64_add, IH by exact Hrest.
    f_equal. f_equal. cbn [param_count fold_right].
    fold (size_count size). fold (param_count rest). lia.
Qed.

Lemma size_count_nonneg (size : list nat) : 0 <= size_count size.
Proof.
  induction size as [|d rest IH]; cbn; [lia|].
  fold (size_count rest). lia.
Qed.

Lemma param_count_nonneg (sizes : list (list nat)) : 0 <= param_count sizes.
Proof.
  induction sizes as [|size rest IH]; cbn; [lia|].
  fold (size_count size). fold (param_count rest).
  pose proof (size_count_nonneg size). lia.
Qed.

Lemma param_count_perm (sizes sizes' : list (list nat)) :
  Permutation sizes sizes' -> param_count sizes = param_count sizes'.
Proof.
  induction 1 as [|x l l' Hp IH|x y l|l l' l'' H1 IH1 H2 IH2].
  - reflexivity.
  - cbn [param_count fold_right]. fold (param_count l) (param_count l').
    now rewrite IH.
  - cbn [param_count fold_right]. lia.
  - congruence.
Qed.

End ParamCount.

(** The count as the 64-bit arithmetic leaves it. *)
Lemma view_model_param_wrapped (sizes : list (list nat)) :
  Forall (fun size => size <> []) sizes ->
  view_model_param sizes = NInt (wrap64 (param_count sizes)).
Proof.
  intros Hall. unfold view_model_param.
  change (NInt 0) with (NInt (wrap64 0)).
  now rewrite view_model_param_fold.
Qed.

(** X16. For parameters that all have at least one dimension,
    [view_model_param] is the number of parameters reduced to a signed
    64-bit integer; it is the exact number whenever that is below
    [2^63]. *)
Theorem view_model_param_counts (sizes : list (list nat)) :
  Forall (fun size => size <> []) sizes ->
  view_model_param sizes = NInt (wrap64 (param_count sizes)) /\
  ((param_count sizes < 2 ^ 63)%Z ->
   view_model_param sizes = NInt (param_count sizes)).
Proof.
  intros Hall.
  assert (E : view_model_param sizes = NInt (wrap64 (param_count sizes))).
  { unfold view_model_param.
    change (NInt 0) with (NInt (wrap64 0)).
    now rewrite view_model_param_fold. }
  split; [exact E|]. intros Hlt. rewrite E. f_equal.
  apply wrap64_small. pose proof (param_count_nonneg sizes). lia.
Qed.

Lemma view_model_param_counts_witness :
  view_model_param [[146; 3]; [146]; [10; 146]]%nat = NInt 2044.
Proof.
  refine (proj2 (view_model_param_counts [[146; 3]; [146]; [10; 146]]%nat _)
            _).
  - repeat constructor; discriminate.
  - vm_compute. reflexivity.
Defined.

(** X17. For parameters that all have at least one dimension, the
    result of [view_model_param] does not depend on the order in which
    the parameters come, overflow or not. *)
Theorem view_model_param_order (sizes sizes' : list (list nat)) :
  Permutation sizes sizes' ->
  Forall (fun size => size <> []) sizes ->
  view_model_param sizes' = view_model_param sizes.
Proof.
  intros Hperm Hall.
  assert (Hall' : Forall (fun size => size <> []) sizes').
  { rewrite Forall_forall in *. intros x Hx. apply Hall.
    eapply Permutation_in; [apply Permutation_sym|]; eauto. }
  rewrite (view_model_param_wrapped sizes Hall).
  rewrite (view_model_param_wrapped sizes' Hall').
  now rewrite (param_count_perm sizes sizes' Hperm).
Qed.

Lemma view_model_param_order_witness :
  view_model_param [[146]; [146; 3]]%nat
  = view_model_param [[146; 3]; [146]]%nat.
Proof.
  apply (view_model_param_order [[146; 3]; [146]]%nat [[146]; [146; 3]]%nat).
  - apply perm_swap.
  - repeat constructor; discriminate.
Defined.

(** ** [gpu_setup] and [main] *)

Section Setup.

Local Open Scope string_scope.

Lemma env_get_set_same (k v : string) (env : Env) :
  env_get k (env_set k v env) = Some v.
Proof.
  induction env as [|[k' v'] rest IH]; cbn.
  - now rewrite String.eqb_refl.
  - destruct (String.eqb_spec k' k) as [->|Hne]; cbn.
    + now rewrite String.eqb_refl.
    + destruct (String.eqb_spec k' k); [contradiction|exact IH].
Qed.

Lemma env_get_set_other (k k0 v : string) (env : Env) :
  k0 <> k -> env_get k0 (env_set k v env) = env_get k0 env.
Proof.
  intros Hne. induction env as [|[k' v'] rest IH]; cbn.
  - destruct (String.eqb_spec k k0); [congruence|reflexivity].
  - destruct (String.eqb_spec k' k) as [->|Hk]; cbn.
    + destruct (String.eqb_spec k k0); [congruence|reflexivity].
    + destruct (String.eqb_spec k' k0); [reflexivity|exact IH].
Qed.

End Setup.

(** X18. [gpu_setup] picks the cuda device exactly when cuda is
    available and [use_gpu] is set.  Then the environment maps
    [CUDA_DEVICE_ORDER] to [PCI_BUS_ID] and [CUDA_VISIBLE_DEVICES] to
    [gpu_id] and keeps every other variable; otherwise the environment
    is not touched. *)
Theorem gpu_setup_environment (cuda_available use_gpu : bool)
    (gpu_id : string) (env : Env) :
  (fst (gpu_setup cuda_available use_gpu gpu_id env) = cuda <->
   cuda_available = true /\ use_gpu = true) /\
  (fst (gpu_setup cuda_available use_gpu gpu_id env) = cpu ->
   snd (gpu_setup cuda_available use_gpu gpu_id env) = env) /\
  (fst (gpu_setup cuda_available use_gpu gpu_id env) = cuda ->
   let env' := snd (gpu_setup cuda_available use_gpu gpu_id env) in
   env_get "CUDA_DEVICE_ORDER" env' = Some "PCI_BUS_ID"%string /\
   env_get "CUDA_VISIBLE_DEVICES" env' = Some gpu_id /\
   forall k, k <> "CUDA_DEVICE_ORDER"%string ->
             k <> "CUDA_VISIBLE_DEVICES"%string ->
             env_get k env' = env_get k env).
Proof.
  unfold gpu_setup.
  destruct cuda_available, use_gpu; cbn [andb fst snd];
    (split; [split; [intros; try discriminate; auto|intros [? ?];
                     try discriminate; auto]|]);
    (split; [intros; try discriminate; auto|]); intros Hc;
    try discriminate.
  cbn zeta. split; [|split].
  - rewrite env_get_set_other by discriminate. apply env_get_set_same.
  - apply env_get_set_same.
  - intros k H1 H2. now rewrite !env_get_set_other by assumption.
Qed.

Lemma gpu_setup_environment_witness :
  env_get "PATH"
    (snd (gpu_setup true true "1" [("PATH", "/usr/bin")]%string))
  = env_get "PATH" [("PATH", "/usr/bin")]%string.
Proof.
  refine (proj2 (proj2 (proj2 (proj2
            (gpu_setup_environment true true "1"
               [("PATH", "/usr/bin")]%string)) _)) "PATH"%string _ _).
  - reflexivity.
  - discriminate.
  - discriminate.
Defined.

(** X19. [main] cannot train a DiffPool model.  With an empty train
    set the read of the first train graph raises [IndexError]; with a
    first train graph that has a node and an edge, [max] raises on an
    empty test set, and otherwise the computation of ['assign_dim']
    raises [KeyError], [net_params] having no ['pool_ratio'] entry.
    [train_val_pipeline] is not reached. *)
Theorem main_diffpool_key_error
    {S : Type} `{LRScheduler S}
    (out_dir dataset_name gpu_id stamp : string)
    (use_gpu cuda_available ckpt_dir_exists : bool) (batch_size : Z)
    (ds : Dataset) (env : Env) (W : World) :
  (train_nodes ds = [] ->
   main (S := S) out_dir dataset_name "DiffPool" gpu_id stamp use_gpu
     cuda_available ckpt_dir_exists batch_size ds env W
   = Failed IndexError) /\
  (first_graph_read ds = Done tt ->
   main (S := S) out_dir dataset_name "DiffPool" gpu_id stamp use_gpu
     cuda_available ckpt_dir_exists batch_size ds env W
   = match test_nodes ds with
     | [] => Failed MaxOfEmpty
     | _ :: _ => Failed (KeyError "pool_ratio")
     end).
Proof.
  unfold main, first_graph_read. split.
  - intros ->. reflexivity.
  - destruct (train_nodes ds) as [|[|n] l]; try discriminate.
    destruct (train_edges ds) as [|[|m] l0]; try discriminate.
    intros _. cbn [String.eqb Ascii.eqb Bool.eqb py_max].
    destruct (test_nodes ds) as [|b l']; reflexivity.
Qed.

Lemma main_diffpool_key_error_witness :
  main (S := Plateau) "result/m1_demo" "MNIST" "DiffPool" "0"
    "12h00m00s_on_Nov_03_2026" false false false 128 small_dataset []
    steady_world
  = Failed (KeyError "pool_ratio").
Proof.
  refine (proj2 (main_diffpool_key_error (S := Plateau) "result/m1_demo"
                   "MNIST" "0" "12h00m00s_on_Nov_03_2026" false false false
                   128 small_dataset [] steady_world) _).
  reflexivity.
Defined.

Lemma split_keeps_absent (c sep : ascii) (s : string) :
  has_char c s = false ->
  Forall (fun w => has_char c w = false) (split sep s).
Proof.
  induction s as [|a s IH]; cbn [split has_char]; intros Hs.
  - repeat constructor.
  - apply orb_false_elim in Hs as [Ha Hs]. specialize (IH Hs).
    destruct (Ascii.eqb a sep).
    + constructor; [reflexivity|exact IH].
    + destruct (split sep s) as [|w ws].
      * constructor; [|constructor]. cbn [has_char]. now rewrite Ha.
      * inversion IH as [|? ? Hw Hws]; subst. constructor; [|exact Hws].
        cbn [has_char]. now rewrite Ha.
Qed.

Lemma basename_keeps_absent (c : ascii) (path : string) :
  has_char c path = false -> has_char c (basename path) = false.
Proof.
  intros Hs. unfold basename.
  pose proof (split_keeps_absent c "/" path Hs) as Hall.
  induction Hall as [|w ws Hw Hws IH]; [reflexivity|].
  destruct ws; [exact Hw|exact IH].
Qed.


